(** * Realtime sync service and SQLite cache store of ponder's core

    Shallow embedding of
    - [packages/core/src/realtime-sync/service.ts] ([RealtimeSyncService]):
      the service is a state (local chain, finalized block number, task
      queue, polling flag) threaded through a small state-and-exception
      monad; every call it makes on the event store and every event it
      emits is appended to a trace;
    - [packages/core/src/database/cache/sqliteCacheStore.ts]
      ([SqliteCacheStore]): the cachedIntervals table is a list of rows in
      rowid order, the logs, blocks, transactions and contractCalls tables,
      keyed by their primary key, are gmaps.

    Block numbers and timestamps are JavaScript numbers and are modelled as
    [Z]; the hex decoding [hexToNumber] of RPC responses is taken as done
    (the fields hold the decoded values).  Logging and metrics have no
    effect on the state and are not modelled; neither is the debug-only
    [stats] object. *)

From Stdlib Require Import ZArith String Bool Lia.
From Stdlib Require Import Sorting.Sorted Sorting.Permutation.
From stdpp Require Import base gmap strings list.

Open Scope Z_scope.

(* ================================================================== *)
(** ** Data model *)

Record Transaction := {
  tx_hash : string;
  tx_blockHash : string;
  tx_blockNumber : Z;
}.

(** An RPC log, as returned by [eth_getLogs]. *)
Record Log := {
  log_id : string;
  log_address : string;
  log_blockHash : string;
  log_blockNumber : Z;
  log_transactionHash : string;
}.

(** [BlockWithTransactions] (format.ts): the full RPC block. *)
Record BlockWithTransactions := {
  bw_hash : string;
  bw_number : Z;
  bw_parentHash : string;
  bw_timestamp : Z;
  bw_logsBloom : string;
  bw_transactions : list Transaction;
}.

(** [LightBlock] (format.ts). *)
Record LightBlock := {
  lb_hash : string;
  lb_number : Z;
  lb_parentHash : string;
  lb_timestamp : Z;
}.

(** Modelled from the spec: [rpcBlockToLightBlock] (format.ts, not in
    src/) keeps [hash], [number], [parentHash] and [timestamp] of the RPC
    block (section 3, "Block (light)"). *)
Definition rpcBlockToLightBlock (b : BlockWithTransactions) : LightBlock :=
  {| lb_hash := bw_hash b; lb_number := bw_number b;
     lb_parentHash := bw_parentHash b; lb_timestamp := bw_timestamp b |}.

(** The [filter] part of a [LogFilter] (config/logFilters.ts). *)
Record LogFilterCriteria := {
  lfc_key : string;
  lfc_address : string;
  lfc_topics : list (option (list string));
  lfc_endBlock : option Z;
}.

Record LogFilter := {
  lf_name : string;
  lf_filter : LogFilterCriteria;
}.

(** The JSON-RPC client of a network: each request returns the decoded
    response, [None] for a null response. *)
Record RpcClient := {
  eth_getBlockByNumber : Z -> option BlockWithTransactions;
  eth_getBlockByNumber_latest : option BlockWithTransactions;
  eth_getBlockByHash : string -> option BlockWithTransactions;
  eth_getLogs : string -> list Log;
}.

Record Network := {
  net_name : string;
  net_chainId : Z;
  net_finalityBlockCount : Z;
  net_pollingInterval : Z;
  net_client : RpcClient;
}.

Inductive RealtimeSyncEvent :=
| realtimeCheckpoint (timestamp : Z)
| finalityCheckpoint (timestamp : Z)
| shallowReorg (commonAncestorTimestamp : Z)
| deepReorg (detectedAtBlockNumber : Z) (minimumDepth : Z).

(** Calls on the event store and emitted events, in program order. *)
Inductive Effect :=
| insertRealtimeBlock (chainId : Z) (block : BlockWithTransactions)
    (transactions : list Transaction) (logs : list Log)
| insertLogFilterCachedRanges (logFilterKeys : list string)
    (startBlock endBlock endBlockTimestamp : Z)
| deleteRealtimeData (chainId : Z) (fromBlockNumber : Z)
| emit (e : RealtimeSyncEvent).

(** The fields of [RealtimeSyncService] that the worker and [start] use.
    [queue] holds the pending tasks with their priorities, in insertion
    order. *)
Record ServiceState := {
  blocks : list LightBlock;
  finalizedBlockNumber : Z;
  queue : list (BlockWithTransactions * Z);
  queueStarted : bool;
  polling : bool;
  trace : list Effect;
}.

Definition MAX_SAFE_INTEGER : Z := 9007199254740991.

(* ================================================================== *)
(** ** A state monad with exceptions

    A thrown exception keeps the state reached so far: the service
    mutates its fields in place, and a later throw does not undo that. *)

Inductive Outcome (A : Type) :=
| Ok (a : A)
| Throw (msg : string).
Arguments Ok {A} a.
Arguments Throw {A} msg.

Definition Svc (A : Type) : Type := ServiceState -> Outcome A * ServiceState.

Definition svc_ret {A} (a : A) : Svc A := fun st => (Ok a, st).

Definition svc_bind {A B} (m : Svc A) (k : A -> Svc B) : Svc B :=
  fun st => match m st with
            | (Ok a, st') => k a st'
            | (Throw e, st') => (Throw e, st')
            end.

Definition svc_throw {A} (msg : string) : Svc A := fun st => (Throw msg, st).

Definition svc_get : Svc ServiceState := fun st => (Ok st, st).

Definition svc_modify (f : ServiceState -> ServiceState) : Svc unit :=
  fun st => (Ok tt, f st).

Notation "'let!' x ':=' m 'in' k" := (svc_bind m (fun x => k))
  (at level 200, x name, m at level 100, k at level 200).
Notation "m ;;; k" := (svc_bind m (fun _ => k))
  (at level 100, k at level 200, right associativity).

Fixpoint svc_forM {A} (xs : list A) (f : A -> Svc unit) : Svc unit :=
  match xs with
  | [] => svc_ret tt
  | x :: r => f x ;;; svc_forM r f
  end.

Definition set_blocks (bs : list LightBlock) (st : ServiceState) : ServiceState :=
  {| blocks := bs; finalizedBlockNumber := finalizedBlockNumber st;
     queue := queue st; queueStarted := queueStarted st;
     polling := polling st; trace := trace st |}.

Definition set_finalizedBlockNumber (n : Z) (st : ServiceState) : ServiceState :=
  {| blocks := blocks st; finalizedBlockNumber := n;
     queue := queue st; queueStarted := queueStarted st;
     polling := polling st; trace := trace st |}.

Definition set_queue (q : list (BlockWithTransactions * Z)) (st : ServiceState)
  : ServiceState :=
  {| blocks := blocks st; finalizedBlockNumber := finalizedBlockNumber st;
     queue := q; queueStarted := queueStarted st;
     polling := polling st; trace := trace st |}.

Definition set_started (st : ServiceState) : ServiceState :=
  {| blocks := blocks st; finalizedBlockNumber := finalizedBlockNumber st;
     queue := queue st; queueStarted := true;
     polling := polling st; trace := trace st |}.

Definition set_polling (st : ServiceState) : ServiceState :=
  {| blocks := blocks st; finalizedBlockNumber := finalizedBlockNumber st;
     queue := queue st; queueStarted := queueStarted st;
     polling := true; trace := trace st |}.

Definition add_effect (e : Effect) (st : ServiceState) : ServiceState :=
  {| blocks := blocks st; finalizedBlockNumber := finalizedBlockNumber st;
     queue := queue st; queueStarted := queueStarted st;
     polling := polling st; trace := trace st ++ [e] |}.

Definition perform (e : Effect) : Svc unit := svc_modify (add_effect e).

(** [queue.addTask(task, { priority })]. *)
Definition addTask (task : BlockWithTransactions) (priority : Z) : Svc unit :=
  svc_modify (fun st => set_queue (queue st ++ [(task, priority)]) st).

(** [queue.clear()]. *)
Definition clearQueue : Svc unit := svc_modify (set_queue []).

(** [kill]: [unpoll] stops the polling, [queue.pause()] stops the queue and
    [queue.clear()] drops its pending tasks; the local chain and the
    finalized block number are kept. *)
Definition kill : Svc unit :=
  svc_modify (fun st =>
    {| blocks := blocks st; finalizedBlockNumber := finalizedBlockNumber st;
       queue := []; queueStarted := false; polling := false; trace := trace st |}).

(* ================================================================== *)
(** ** [RealtimeSyncService] *)

Section RealtimeSyncService.

(** The bloom pre-filter ([./bloom]) and the log filter ([./filter]) are
    helpers of this repository outside src/; they are kept abstract, so
    everything below holds for any implementation of them. *)
Variable isMatchedLogInBloomFilter : string -> list LogFilterCriteria -> bool.
Variable filterLogs : list Log -> list LogFilterCriteria -> list Log.

Variable network : Network.
Variable logFilters : list LogFilter.

Definition client : RpcClient := net_client network.
Definition finalityBlockCount : Z := net_finalityBlockCount network.

(** [getLatestBlock]. *)
Definition getLatestBlock : Svc BlockWithTransactions :=
  match eth_getBlockByNumber_latest client with
  | None => svc_throw "Unable to fetch latest block"
  | Some b => svc_ret b
  end.

(** [addNewLatestBlock]. *)
Definition addNewLatestBlock : Svc unit :=
  let! block := getLatestBlock in
  addTask block (MAX_SAFE_INTEGER - bw_number block).

(** [setup]: returns [(latestBlockNumber, finalizedBlockNumber)]. *)
Definition setup : Svc (Z * Z) :=
  let! latestBlock := getLatestBlock in
  let latestBlockNumber := bw_number latestBlock in
  let finalized := Z.max 0 (latestBlockNumber - finalityBlockCount) in
  svc_modify (set_finalizedBlockNumber finalized) ;;;
  addTask latestBlock (MAX_SAFE_INTEGER - latestBlockNumber) ;;;
  svc_ret (latestBlockNumber, finalized).

(** The guard of [start]: every log filter has an [endBlock] below the
    finalized block number ([Array.prototype.every], true on []). *)
Definition allLogFiltersEnded (finalized : Z) : bool :=
  forallb (fun f => match lfc_endBlock (lf_filter f) with
                    | Some endBlock => endBlock <? finalized
                    | None => false
                    end) logFilters.

(** [start]; [poll(...)] is the [polling] flag. *)
Definition start : Svc unit :=
  let! st := svc_get in
  if allLogFiltersEnded (finalizedBlockNumber st) then svc_ret tt
  else if Nat.eqb (length (queue st)) 0 then
    svc_throw "Unable to start. Must call setup() method before start()."
  else
    match eth_getBlockByNumber client (finalizedBlockNumber st) with
    | None => svc_throw "Unable to fetch finalized block"
    | Some finalizedBlock =>
        svc_modify (fun st => set_blocks
                      (blocks st ++ [rpcBlockToLightBlock finalizedBlock]) st) ;;;
        svc_modify set_started ;;;
        svc_modify set_polling
    end.

(** Step 1 of the new-head case: bloom pre-screen, logs fetch and filter,
    store insert.  Returns [matchedLogCount]. *)
Definition processNewHeadLogs (block : BlockWithTransactions) : Svc nat :=
  let filters := map lf_filter logFilters in
  if isMatchedLogInBloomFilter (bw_logsBloom block) filters then
    let logs := eth_getLogs client (bw_hash block) in
    let filteredLogs := filterLogs logs filters in
    let requiredTransactionHashes := map log_transactionHash filteredLogs in
    let filteredTransactions :=
      List.filter (fun t => existsb (String.eqb (tx_hash t)) requiredTransactionHashes)
        (bw_transactions block) in
    (if Nat.ltb 0 (length filteredLogs) then
       perform (insertRealtimeBlock (net_chainId network) block
                  filteredTransactions filteredLogs)
     else svc_ret tt) ;;;
    svc_ret (length filteredLogs)
  else svc_ret 0%nat.

(** The finality advance at the end of the new-head case.  The source's
    [find(...)!] yields [undefined] when no local block has the number, and
    the [filter] callback then throws a TypeError reading its [number]. *)
Definition advanceFinality (newBlock : LightBlock) : Svc unit :=
  let! st := svc_get in
  if finalizedBlockNumber st + 2 * finalityBlockCount <? lb_number newBlock then
    match List.find (fun b => lb_number b =? finalizedBlockNumber st + finalityBlockCount)
            (blocks st) with
    | None => svc_throw "TypeError: Cannot read properties of undefined (reading number)"
    | Some newFinalizedBlock =>
        svc_modify (set_blocks (List.filter
          (fun b => lb_number newFinalizedBlock <=? lb_number b) (blocks st))) ;;;
        perform (insertLogFilterCachedRanges
                   (map (fun l => lfc_key (lf_filter l)) logFilters)
                   (finalizedBlockNumber st + 1)
                   (lb_number newFinalizedBlock)
                   (lb_timestamp newFinalizedBlock)) ;;;
        svc_modify (set_finalizedBlockNumber (lb_number newFinalizedBlock)) ;;;
        perform (emit (finalityCheckpoint (lb_timestamp newFinalizedBlock)))
    end
  else svc_ret tt.

(** Case 2 of [blockTaskWorker]: the new head block. *)
Definition handleNewHead (block : BlockWithTransactions) : Svc unit :=
  let newBlock := rpcBlockToLightBlock block in
  let! matchedLogCount := processNewHeadLogs block in
  perform (emit (realtimeCheckpoint (bw_timestamp block))) ;;;
  svc_modify (fun st => set_blocks (blocks st ++ [newBlock]) st) ;;;
  advanceFinality newBlock.

(** Modelled from the spec: [range] (utils/range, not in src/), the
    numbers [start, ..., stop - 1] (section 4.4.2, [H.number+1 .. B.number-1]). *)
Definition range (start stop : Z) : list Z :=
  map (fun i => start + Z.of_nat i) (seq 0 (Z.to_nat (stop - start))).

(** [Promise.all] over [eth_getBlockByNumber] for each missing number. *)
Fixpoint fetchMissingBlocks (numbers : list Z) : Svc (list BlockWithTransactions) :=
  match numbers with
  | [] => svc_ret []
  | n :: rest =>
      match eth_getBlockByNumber client n with
      | None => svc_throw "Failed to fetch block number"
      | Some b => let! bs := fetchMissingBlocks rest in svc_ret (b :: bs)
      end
  end.

(** Case 3 of [blockTaskWorker]: missing blocks. *)
Definition handleGap (previousHeadBlock : LightBlock) (block : BlockWithTransactions)
  : Svc unit :=
  let missingBlockNumbers :=
    range (lb_number previousHeadBlock + 1) (bw_number block) in
  let! missingBlocks := fetchMissingBlocks missingBlockNumbers in
  svc_forM (missingBlocks ++ [block])
    (fun b => addTask b (MAX_SAFE_INTEGER - bw_number b)).

(** The outcome of the [while] loop of case 4.  The loop reads the local
    chain and the finalized block number, which it does not change, and
    fetches parent blocks; [OutOfFuel] stands for a traversal longer than
    the fuel (the source loop would go on). *)
Inductive Traversal :=
| AncestorFound (commonAncestorBlock : LightBlock)
    (canonicalBlocksWithTransactions : list BlockWithTransactions) (depth : nat)
| ReachedFinalized
    (canonicalBlocksWithTransactions : list BlockWithTransactions) (depth : nat)
| ParentFetchFailed (parentHash : string)
| OutOfFuel.

Fixpoint traverseCanonical (localChain : list LightBlock) (finalized : Z)
    (fuel : nat) (canonical : list BlockWithTransactions)
    (canonicalBlock : LightBlock) (depth : nat) : Traversal :=
  match fuel with
  | O => OutOfFuel
  | S fuel' =>
      if finalized <? lb_number canonicalBlock then
        match List.find (fun b => String.eqb (lb_hash b) (lb_parentHash canonicalBlock))
                localChain with
        | Some commonAncestorBlock => AncestorFound commonAncestorBlock canonical depth
        | None =>
            match eth_getBlockByHash client (lb_parentHash canonicalBlock) with
            | None => ParentFetchFailed (lb_parentHash canonicalBlock)
            | Some parentBlock =>
                traverseCanonical localChain finalized fuel' (parentBlock :: canonical)
                  (rpcBlockToLightBlock parentBlock) (S depth)
            end
        end
      else ReachedFinalized canonical depth
  end.

(** Case 4 of [blockTaskWorker]: reorg. *)
Definition handleReorg (fuel : nat) (block : BlockWithTransactions) : Svc unit :=
  let newBlock := rpcBlockToLightBlock block in
  let! st := svc_get in
  match traverseCanonical (blocks st) (finalizedBlockNumber st) fuel [block] newBlock 0 with
  | AncestorFound commonAncestorBlock canonical _ =>
      svc_modify (set_blocks (List.filter
        (fun b => lb_number b <=? lb_number commonAncestorBlock) (blocks st))) ;;;
      perform (deleteRealtimeData (net_chainId network)
                 (lb_number commonAncestorBlock + 1)) ;;;
      clearQueue ;;;
      svc_forM canonical (fun b => addTask b (MAX_SAFE_INTEGER - bw_number b)) ;;;
      addNewLatestBlock ;;;
      perform (emit (shallowReorg (lb_timestamp commonAncestorBlock)))
  | ReachedFinalized _ depth =>
      perform (emit (deepReorg (lb_number newBlock) (Z.of_nat depth)))
  | ParentFetchFailed _ => svc_throw "Failed to fetch parent block with hash"
  | OutOfFuel => svc_throw "traversal exceeded the fuel"
  end.

(** [blockTaskWorker].  [previousHeadBlock] is [blocks[blocks.length - 1]];
    on an empty local chain it is [undefined] and reading its [number]
    throws. *)
Definition blockTaskWorker (fuel : nat) (block : BlockWithTransactions) : Svc unit :=
  let newBlock := rpcBlockToLightBlock block in
  let! st := svc_get in
  if existsb (fun b => String.eqb (lb_hash b) (lb_hash newBlock)) (blocks st) then
    svc_ret tt
  else
    match last (blocks st) with
    | None => svc_throw "TypeError: Cannot read properties of undefined (reading number)"
    | Some previousHeadBlock =>
        if (lb_number newBlock =? lb_number previousHeadBlock + 1)
           && String.eqb (lb_parentHash newBlock) (lb_hash previousHeadBlock) then
          handleNewHead block
        else if lb_number previousHeadBlock + 1 <? lb_number newBlock then
          handleGap previousHeadBlock block
        else handleReorg fuel block
    end.

End RealtimeSyncService.

(* ================================================================== *)
(** ** [SqliteCacheStore]: cached intervals *)

(** A row of the cachedIntervals table (the [id] column is not modelled:
    rows are kept in rowid order). *)
Record CachedInterval := {
  ci_contractAddress : string;
  ci_startBlock : Z;
  ci_endBlock : Z;
  ci_endBlockTimestamp : Z;
}.

Definition CachedIntervalsTable := list CachedInterval.

(** [getCachedIntervals]: [SELECT * ... WHERE contractAddress = ?]. *)
Definition getCachedIntervals (contractAddress : string) (tbl : CachedIntervalsTable)
  : list CachedInterval :=
  List.filter (fun r => String.eqb (ci_contractAddress r) contractAddress) tbl.

(** [DELETE ... WHERE contractAddress = ? RETURNING *]: the deleted rows
    and the rows left. *)
Definition deleteIntervals (contractAddress : string) (tbl : CachedIntervalsTable)
  : list CachedInterval * CachedIntervalsTable :=
  (getCachedIntervals contractAddress tbl,
   List.filter (fun r => negb (String.eqb (ci_contractAddress r) contractAddress)) tbl).

Section InsertCachedInterval.

(** [merge_intervals] (common/utils) is kept abstract here. *)
Variable merge_intervals : list (Z * Z) -> list (Z * Z).

(** The [forEach] over the merged intervals: each row takes the
    [endBlockTimestamp] of the first of [newInterval, ...existingIntervals]
    with the same [endBlock], or the transaction throws. *)
Fixpoint insertMergedIntervals (contractAddress : string)
    (contributors : list CachedInterval) (merged : list (Z * Z))
  : Outcome (list CachedInterval) :=
  match merged with
  | [] => Ok []
  | (startBlock, endBlock) :: rest =>
      match List.find (fun o => ci_endBlock o =? endBlock) contributors with
      | None => Throw "Old interval with endBlock not found"
      | Some endBlockInterval =>
          match insertMergedIntervals contractAddress contributors rest with
          | Ok rows =>
              Ok ({| ci_contractAddress := contractAddress;
                     ci_startBlock := startBlock; ci_endBlock := endBlock;
                     ci_endBlockTimestamp := ci_endBlockTimestamp endBlockInterval |}
                  :: rows)
          | Throw m => Throw m
          end
      end
  end.

(** The body of [insertIntervalTxn]: the new table, or the exception. *)
Definition insertCachedInterval (tbl : CachedIntervalsTable) (interval : CachedInterval)
  : Outcome CachedIntervalsTable :=
  let '(existingIntervals, rest) := deleteIntervals (ci_contractAddress interval) tbl in
  match existingIntervals with
  | [] => Ok (rest ++ [interval])
  | _ :: _ =>
      let mergedIntervals :=
        merge_intervals
          (map (fun row => (ci_startBlock row, ci_endBlock row)) existingIntervals
           ++ [(ci_startBlock interval, ci_endBlock interval)]) in
      match insertMergedIntervals (ci_contractAddress interval)
              (interval :: existingIntervals) mergedIntervals with
      | Ok rows => Ok (rest ++ rows)
      | Throw m => Throw m
      end
  end.

(** [db.transaction]: a throw rolls the transaction back. *)
Definition cachedIntervalsAfter (tbl : CachedIntervalsTable) (interval : CachedInterval)
  : CachedIntervalsTable :=
  match insertCachedInterval tbl interval with
  | Ok tbl' => tbl'
  | Throw _ => tbl
  end.

(** A sequence of [insertCachedInterval] calls. *)
Definition insertCachedIntervals (tbl : CachedIntervalsTable)
    (intervals : list CachedInterval) : CachedIntervalsTable :=
  fold_left cachedIntervalsAfter intervals tbl.

End InsertCachedInterval.

(** Modelled from the spec: [merge_intervals] (common/utils, not in src/).
    Section 3: intervals [a,b] and [c,d] with [max(a,c) <= min(b,d)+1]
    combine into [[min(a,c), max(b,d)]]; here the intervals are sorted by
    start (stably) and each is combined with the interval built so far. *)
Fixpoint insertByStart (x : Z * Z) (l : list (Z * Z)) : list (Z * Z) :=
  match l with
  | [] => [x]
  | y :: r => if fst x <=? fst y then x :: y :: r else y :: insertByStart x r
  end.

Fixpoint sortByStart (l : list (Z * Z)) : list (Z * Z) :=
  match l with
  | [] => []
  | x :: r => insertByStart x (sortByStart r)
  end.

Fixpoint sweepIntervals (cur : Z * Z) (rest : list (Z * Z)) : list (Z * Z) :=
  match rest with
  | [] => [cur]
  | next :: r =>
      if Z.max (fst cur) (fst next) <=? Z.min (snd cur) (snd next) + 1
      then sweepIntervals (Z.min (fst cur) (fst next), Z.max (snd cur) (snd next)) r
      else cur :: sweepIntervals next r
  end.

Definition merge_intervals (intervals : list (Z * Z)) : list (Z * Z) :=
  match sortByStart intervals with
  | [] => []
  | x :: r => sweepIntervals x r
  end.

(* ================================================================== *)
(** ** [SqliteCacheStore]: logs, blocks, transactions, contract calls *)

(** [Log] of common/types as stored in the logs table. *)
Record CacheLog := {
  cl_logId : string;
  cl_address : string;
  cl_blockHash : string;
  cl_blockNumber : Z;
  cl_blockTimestamp : option Z;
  cl_transactionHash : string;
}.

Record CacheBlock := {
  cb_hash : string;
  cb_number : Z;
  cb_timestamp : Z;
  cb_parentHash : string;
}.

Record CacheTransaction := {
  ct_hash : string;
  ct_blockHash : string;
  ct_blockNumber : Z;
}.

Record ContractCall := {
  cc_key : string;
  cc_result : string;
}.

Record CacheStore := {
  logsTable : gmap string CacheLog;
  blocksTable : gmap string CacheBlock;
  transactionsTable : gmap string CacheTransaction;
  contractCallsTable : gmap string ContractCall;
}.

Definition emptyCacheStore : CacheStore :=
  {| logsTable := ∅; blocksTable := ∅; transactionsTable := ∅;
     contractCallsTable := ∅ |}.

Definition set_logsTable (m : gmap string CacheLog) (s : CacheStore) : CacheStore :=
  {| logsTable := m; blocksTable := blocksTable s;
     transactionsTable := transactionsTable s; contractCallsTable := contractCallsTable s |}.

Definition set_blocksTable (m : gmap string CacheBlock) (s : CacheStore) : CacheStore :=
  {| logsTable := logsTable s; blocksTable := m;
     transactionsTable := transactionsTable s; contractCallsTable := contractCallsTable s |}.

Definition set_transactionsTable (m : gmap string CacheTransaction) (s : CacheStore)
  : CacheStore :=
  {| logsTable := logsTable s; blocksTable := blocksTable s;
     transactionsTable := m; contractCallsTable := contractCallsTable s |}.

Definition set_contractCallsTable (m : gmap string ContractCall) (s : CacheStore)
  : CacheStore :=
  {| logsTable := logsTable s; blocksTable := blocksTable s;
     transactionsTable := transactionsTable s; contractCallsTable := m |}.

(** The row [insertLog] writes: the INSERT lists no [blockTimestamp]
    column, so it is NULL. *)
Definition logRow (log : CacheLog) : CacheLog :=
  {| cl_logId := cl_logId log; cl_address := cl_address log;
     cl_blockHash := cl_blockHash log; cl_blockNumber := cl_blockNumber log;
     cl_blockTimestamp := None; cl_transactionHash := cl_transactionHash log |}.

(** [insertLog.run]: [ON CONFLICT("logId") DO NOTHING]. *)
Definition insertLogRow (s : CacheStore) (log : CacheLog) : CacheStore :=
  match logsTable s !! cl_logId log with
  | Some _ => s
  | None => set_logsTable (<[cl_logId log := logRow log]> (logsTable s)) s
  end.

(** [insertLogs]. *)
Definition insertLogs (logs : list CacheLog) (s : CacheStore) : CacheStore :=
  fold_left insertLogRow logs s.

(** The first statement of [insertBlock]: [ON CONFLICT("hash") DO NOTHING]. *)
Definition insertBlockRow (block : CacheBlock) (s : CacheStore) : CacheStore :=
  match blocksTable s !! cb_hash block with
  | Some _ => s
  | None => set_blocksTable (<[cb_hash block := block]> (blocksTable s)) s
  end.

(** The second statement of [insertBlock]:
    [UPDATE logs SET blockTimestamp = ? WHERE blockHash = ?]. *)
Definition backfillBlockTimestamp (block : CacheBlock) (s : CacheStore) : CacheStore :=
  set_logsTable
    ((fun l => if String.eqb (cl_blockHash l) (cb_hash block)
               then {| cl_logId := cl_logId l; cl_address := cl_address l;
                       cl_blockHash := cl_blockHash l; cl_blockNumber := cl_blockNumber l;
                       cl_blockTimestamp := Some (cb_timestamp block);
                       cl_transactionHash := cl_transactionHash l |}
               else l) <$> logsTable s) s.

(** [insertBlock]. *)
Definition insertBlock (block : CacheBlock) (s : CacheStore) : CacheStore :=
  backfillBlockTimestamp block (insertBlockRow block s).

(** [insertTransactions]: [ON CONFLICT("hash") DO NOTHING]. *)
Definition insertTransactionRow (s : CacheStore) (t : CacheTransaction) : CacheStore :=
  match transactionsTable s !! ct_hash t with
  | Some _ => s
  | None => set_transactionsTable (<[ct_hash t := t]> (transactionsTable s)) s
  end.

Definition insertTransactions (ts : list CacheTransaction) (s : CacheStore) : CacheStore :=
  fold_left insertTransactionRow ts s.

(** Modelled from the spec: [insertRealtimeBlock] of the event store (not in
    src/), section 4.1: insert the block row (ignore on conflict), the
    transactions (ignore on conflict), the logs (ignore on conflict by
    [logId]), then backfill [blockTimestamp] on the logs of the block. *)
Definition insertRealtimeBlockRows (block : CacheBlock)
    (transactions : list CacheTransaction) (logs : list CacheLog) (s : CacheStore)
  : CacheStore :=
  backfillBlockTimestamp block
    (insertLogs logs (insertTransactions transactions (insertBlockRow block s))).

(** [upsertContractCall]: [ON CONFLICT("key") DO UPDATE SET result = excluded.result]. *)
Definition upsertContractCall (contractCall : ContractCall) (s : CacheStore) : CacheStore :=
  let m := contractCallsTable s in
  match m !! cc_key contractCall with
  | Some row =>
      set_contractCallsTable
        (<[cc_key contractCall := {| cc_key := cc_key row; cc_result := cc_result contractCall |}]> m) s
  | None => set_contractCallsTable (<[cc_key contractCall := contractCall]> m) s
  end.

(** [getContractCall]: the row, or [null] ([None]). *)
Definition getContractCall (contractCallKey : string) (s : CacheStore) : option ContractCall :=
  contractCallsTable s !! contractCallKey.

(** [getBlock]: the row, or [null] ([None]); [decodeBlock] (mappers, not in
    src/) is taken as the identity on the modelled columns. *)
Definition getBlock (hash : string) (s : CacheStore) : option CacheBlock :=
  blocksTable s !! hash.

(** [getTransaction]: the row, or [null] ([None]); [decodeTransaction]
    (mappers, not in src/) is taken as the identity on the modelled columns. *)
Definition getTransaction (hash : string) (s : CacheStore) : option CacheTransaction :=
  transactionsTable s !! hash.

(** [getLogs] called without [eventSigHashes] (no [topic0] condition; the
    modelled logs table has no topic columns):
    [WHERE address = ? AND blockTimestamp > ? AND blockTimestamp <= ?].  A
    NULL [blockTimestamp] fails both comparisons.  The query has no ORDER BY,
    so only the set of rows returned is meaningful; [decodeLog] (mappers,
    not in src/) is taken as the identity on the modelled columns. *)
Definition getLogs (contractAddress : string) (fromBlockTimestamp toBlockTimestamp : Z)
    (s : CacheStore) : list CacheLog :=
  map snd (List.filter
    (fun kl => String.eqb (cl_address (snd kl)) contractAddress &&
               match cl_blockTimestamp (snd kl) with
               | Some ts => (fromBlockTimestamp <? ts) && (ts <=? toBlockTimestamp)
               | None => false
               end)
    (map_to_list (logsTable s))).

(* ================================================================== *)
(** ** Properties used in the statements *)

(** Section 3: the block numbers of the local chain are [n, n+1, ...]. *)
Fixpoint chainNumbersFrom (n : Z) (bs : list LightBlock) : Prop :=
  match bs with
  | [] => True
  | b :: r => lb_number b = n /\ chainNumbersFrom (n + 1) r
  end.

Definition isInsertRealtimeBlock (e : Effect) : bool :=
  match e with
  | insertRealtimeBlock _ _ _ _ => true
  | _ => false
  end.

Definition with_trace (tr : list Effect) (st : ServiceState) : ServiceState :=
  {| blocks := blocks st; finalizedBlockNumber := finalizedBlockNumber st;
     queue := queue st; queueStarted := queueStarted st;
     polling := polling st; trace := tr |}.

Definition interval_of (r : CachedInterval) : Z * Z := (ci_startBlock r, ci_endBlock r).

(** A block range [startBlock, endBlock] with [startBlock <= endBlock]. *)
Definition wellFormedInterval (r : CachedInterval) : Prop :=
  ci_startBlock r <= ci_endBlock r.

(** Neither overlapping nor adjacent: not [max(a,c) <= min(b,d) + 1]. *)
Definition separatedIntervals (x y : Z * Z) : Prop :=
  Z.min (snd x) (snd y) + 1 < Z.max (fst x) (fst y).

Definition startLe (x y : Z * Z) : Prop := fst x <= fst y.

(** Well-formed intervals in increasing order, each ending at least two
    blocks before the next one starts. *)
Fixpoint chainIntervals (l : list (Z * Z)) : Prop :=
  match l with
  | [] => True
  | x :: r =>
      fst x <= snd x /\
      match r with [] => True | y :: _ => snd x + 1 < fst y end /\
      chainIntervals r
  end.

(** The block numbers a list of intervals covers. *)
Definition coversBlock (l : list (Z * Z)) (n : Z) : Prop :=
  exists x, In x l /\ fst x <= n <= snd x.

(** The cachedIntervals table invariant: for every contract, its rows (in
    table order) form a chain. *)
Definition cachedIntervalsInvariant (tbl : CachedIntervalsTable) : Prop :=
  forall c, chainIntervals (map interval_of (getCachedIntervals c tbl)).

(** Concrete inputs for the counterexamples and witnesses below. *)
Definition sample_block (hash : string) (number : Z) (parentHash : string)
  : BlockWithTransactions :=
  {| bw_hash := hash; bw_number := number; bw_parentHash := parentHash;
     bw_timestamp := 1000 + number; bw_logsBloom := "0x0"; bw_transactions := [] |}.

Definition sample_light (hash : string) (number : Z) (parentHash : string) : LightBlock :=
  rpcBlockToLightBlock (sample_block hash number parentHash).

(** An endpoint that answers every by-number request and no by-hash one. *)
Definition sample_client : RpcClient :=
  {| eth_getBlockByNumber := fun n => Some (sample_block "h" n "p");
     eth_getBlockByNumber_latest := Some (sample_block "latest" 200 "p");
     eth_getBlockByHash := fun h => None;
     eth_getLogs := fun h => [] |}.

Definition sample_network (finality : Z) (c : RpcClient) : Network :=
  {| net_name := "mainnet"; net_chainId := 1; net_finalityBlockCount := finality;
     net_pollingInterval := 1000; net_client := c |}.

Definition sample_filter (endBlock : option Z) : LogFilter :=
  {| lf_name := "Token"; lf_filter := {| lfc_key := "key"; lfc_address := "0xabc";
                                          lfc_topics := []; lfc_endBlock := endBlock |} |}.

Definition sample_state (bs : list LightBlock) (finalized : Z)
    (q : list (BlockWithTransactions * Z)) : ServiceState :=
  {| blocks := bs; finalizedBlockNumber := finalized; queue := q;
     queueStarted := false; polling := false; trace := [] |}.

(** The canonical fork of the reorg scenarios: [X] is a block 100 whose
    parent is the local [H99]; [Y101 <- Y100] a fork reaching back to and
    below the finalized block 100. *)
Definition fork_client : RpcClient :=
  {| eth_getBlockByNumber := fun n => Some (sample_block "h" n "p");
     eth_getBlockByNumber_latest := Some (sample_block "latest" 200 "p");
     eth_getBlockByHash := fun h =>
       if String.eqb h "X" then Some (sample_block "X" 100 "H99")
       else if String.eqb h "Y101" then Some (sample_block "Y101" 101 "Y100")
       else if String.eqb h "Y100" then Some (sample_block "Y100" 100 "Y99")
       else None;
     eth_getLogs := fun h => [] |}.

(** An endpoint with no block 101, no latest block and no block by hash. *)
Definition gap_client : RpcClient :=
  {| eth_getBlockByNumber := fun n => if n =? 101 then None else Some (sample_block "h" n "p");
     eth_getBlockByNumber_latest := None;
     eth_getBlockByHash := fun h => None;
     eth_getLogs := fun h => [] |}.

(** A local chain of [count] blocks numbered from [n], all with hash [h]. *)
Definition sample_chain (n : Z) (count : nat) : list LightBlock :=
  map (fun i => sample_light "h" (n + Z.of_nat i) "h") (seq 0 count).

(** The local chain [98 <- 99 <- 100] of the reorg scenarios. *)
Definition reorg_chain : list LightBlock :=
  [sample_light "H98" 98 "H97"; sample_light "H99" 99 "H98"; sample_light "H100" 100 "H99"].


(** Cached intervals of one contract, timestamp = endBlock. *)
Definition sample_interval (startBlock endBlock : Z) : CachedInterval :=
  {| ci_contractAddress := "0xc"; ci_startBlock := startBlock;
     ci_endBlock := endBlock; ci_endBlockTimestamp := endBlock |}.

Definition sample_intervals : list CachedInterval :=
  [sample_interval 10 20; sample_interval 30 40].

(** A row of another contract. *)
Definition other_interval : CachedInterval :=
  {| ci_contractAddress := "0xd"; ci_startBlock := 1; ci_endBlock := 5; ci_endBlockTimestamp := 5 |}.


(** Every stored log's block is stored. *)
Definition logsHaveBlocks (s : CacheStore) : Prop :=
  forall logId l, logsTable s !! logId = Some l ->
  exists b, blocksTable s !! cl_blockHash l = Some b.

(** A sequence of [upsertContractCall] calls. *)
Definition upsertContractCalls (calls : list ContractCall) (s : CacheStore) : CacheStore :=
  fold_left (fun s cc => upsertContractCall cc s) calls s.

Definition sample_cache_block : CacheBlock :=
  {| cb_hash := "0xb1"; cb_number := 101; cb_timestamp := 1101; cb_parentHash := "0xb0" |}.

Definition sample_cache_log (logId blockHash : string) : CacheLog :=
  {| cl_logId := logId; cl_address := "0xc"; cl_blockHash := blockHash;
     cl_blockNumber := 101; cl_blockTimestamp := None; cl_transactionHash := "0xt" |}.


(** The service right after its constructor: [finalizedBlockNumber = 0],
    [blocks = []], an empty queue that is not started, no polling. *)
Definition initialServiceState : ServiceState :=
  {| blocks := []; finalizedBlockNumber := 0; queue := []; queueStarted := false;
     polling := false; trace := [] |}.

(** Each block extends the previous one: number + 1 and parent hash. *)
Fixpoint linkedFrom (prev : LightBlock) (bs : list LightBlock) : Prop :=
  match bs with
  | [] => True
  | b :: r => lb_number b = lb_number prev + 1 /\ lb_parentHash b = lb_hash prev /\
              linkedFrom b r
  end.

(** The local chain is non-empty, starts at the finalized block number and
    is linked. *)
Definition localChainOk (finalized : Z) (bs : list LightBlock) : Prop :=
  match bs with
  | [] => False
  | b :: r => lb_number b = finalized /\ linkedFrom b r
  end.

(** The store calls a block task on [B] may record, started in state [st]. *)
Definition workerEffectOk
    (isMatchedLogInBloomFilter : string -> list LogFilterCriteria -> bool)
    (filterLogs : list Log -> list LogFilterCriteria -> list Log)
    (network : Network) (logFilters : list LogFilter)
    (st : ServiceState) (B : BlockWithTransactions) (e : Effect) : Prop :=
  match e with
  | insertRealtimeBlock chainId block transactions logs =>
      chainId = net_chainId network /\ block = B /\
      isMatchedLogInBloomFilter (bw_logsBloom B) (map lf_filter logFilters) = true /\
      logs = filterLogs (eth_getLogs (net_client network) (bw_hash B))
               (map lf_filter logFilters) /\
      logs <> [] /\
      (forall t, In t transactions <->
         In t (bw_transactions B) /\
         exists l, In l logs /\ log_transactionHash l = tx_hash t)
  | insertLogFilterCachedRanges logFilterKeys startBlock endBlock endBlockTimestamp =>
      logFilterKeys = map (fun l => lfc_key (lf_filter l)) logFilters /\
      startBlock = finalizedBlockNumber st + 1 /\
      exists F, In F (blocks st ++ [rpcBlockToLightBlock B]) /\
        lb_number F = finalizedBlockNumber st + net_finalityBlockCount network /\
        endBlock = lb_number F /\ endBlockTimestamp = lb_timestamp F
  | deleteRealtimeData chainId fromBlockNumber =>
      chainId = net_chainId network /\
      exists A, In A (blocks st) /\ fromBlockNumber = lb_number A + 1
  | emit _ => True
  end.

Definition isEmit (e : Effect) : Prop := exists ev, e = emit ev.

(* ================================================================== *)
(** ** Realtime sync: theorems *)

Section RealtimeSyncProofs.

Variable isMatchedLogInBloomFilter : string -> list LogFilterCriteria -> bool.
Variable filterLogs : list Log -> list LogFilterCriteria -> list Log.
Variable network : Network.
Variable logFilters : list LogFilter.

Local Abbreviation worker :=
  (blockTaskWorker isMatchedLogInBloomFilter filterLogs network logFilters).
Local Abbreviation fbc := (net_finalityBlockCount network).
Local Abbreviation filters := (map lf_filter logFilters).

Lemma chainNumbersFrom_last (n : Z) (bs : list LightBlock) (p : LightBlock) :
  chainNumbersFrom n bs -> last bs = Some p ->
  lb_number p = n + Z.of_nat (length bs) - 1.
Proof.
  revert n. induction bs as [|b r IH]; intros n Hc Hl; [discriminate|].
  destruct Hc as [Hb Hr]. destruct r as [|b' r'].
  - simpl in Hl. injection Hl as <-. simpl. lia.
  - change (last (b :: b' :: r')) with (last (b' :: r')) in Hl.
    specialize (IH (n + 1) Hr Hl). cbn [length] in *. lia.
Qed.

Lemma chainNumbersFrom_member (n : Z) (bs : list LightBlock) (k : Z) :
  chainNumbersFrom n bs -> 0 <= k < Z.of_nat (length bs) ->
  exists b, In b bs /\ lb_number b = n + k.
Proof.
  revert n k. induction bs as [|b r IH]; intros n k Hc Hk; cbn [length] in Hk; [lia|].
  destruct Hc as [Hb Hr].
  destruct (Z.eq_dec k 0) as [->|Hk0].
  - exists b. split; [left; reflexivity | lia].
  - destruct (IH (n + 1) (k - 1) Hr) as [b' [Hin Hn]]; [lia|].
    exists b'. split; [right; exact Hin | lia].
Qed.

Lemma find_member {A} (p : A -> bool) (l : list A) (x : A) :
  In x l -> p x = true -> exists y, List.find p l = Some y /\ In y l /\ p y = true.
Proof.
  intros Hin Hp. destruct (List.find p l) as [y|] eqn:Hf.
  - exists y. apply List.find_some in Hf. tauto.
  - exfalso. pose proof (List.find_none p l Hf x Hin). congruence.
Qed.

Lemma last_filter_snoc {A} (p : A -> bool) (l : list A) (x : A) :
  p x = true -> last (List.filter p (l ++ [x])) = Some x.
Proof.
  intros Hp. rewrite List.filter_app. simpl. rewrite Hp. apply last_snoc.
Qed.

(** The bloom/logs step changes nothing but the trace, and adds at most an
    [insertRealtimeBlock], only when some log matched. *)
Lemma processNewHeadLogs_shape (B : BlockWithTransactions) (st : ServiceState) :
  exists n pre,
    processNewHeadLogs isMatchedLogInBloomFilter filterLogs network logFilters B st
      = (Ok n, with_trace (trace st ++ pre) st) /\
    (pre = [] \/
     (isMatchedLogInBloomFilter (bw_logsBloom B) filters = true /\
      filterLogs (eth_getLogs (net_client network) (bw_hash B)) filters <> [] /\
      exists txs ls, pre = [insertRealtimeBlock (net_chainId network) B txs ls])).
Proof.
  unfold processNewHeadLogs, client.
  destruct (isMatchedLogInBloomFilter (bw_logsBloom B) filters) eqn:Hbloom.
  - set (fl := filterLogs (eth_getLogs (net_client network) (bw_hash B)) filters).
    destruct fl as [|l ls] eqn:Hfl.
    + exists 0%nat, []. cbn. rewrite app_nil_r. split; [|left; reflexivity].
      destruct st; reflexivity.
    + eexists; eexists. split.
      * cbn. reflexivity.
      * right. split; [reflexivity|]. split; [discriminate|]. eauto.
  - exists 0%nat, []. rewrite app_nil_r. split; [destruct st; reflexivity | left; reflexivity].
Qed.

Lemma worker_newHead (fuel : nat) (st : ServiceState) (B : BlockWithTransactions)
    (prev : LightBlock) :
  existsb (fun b => String.eqb (lb_hash b) (bw_hash B)) (blocks st) = false ->
  last (blocks st) = Some prev ->
  bw_number B = lb_number prev + 1 -> bw_parentHash B = lb_hash prev ->
  worker fuel B st
    = handleNewHead isMatchedLogInBloomFilter filterLogs network logFilters B st.
Proof.
  intros Hdup Hlast Hn Hp. unfold blockTaskWorker, svc_bind, svc_get, rpcBlockToLightBlock.
  cbn [lb_hash lb_number lb_parentHash].
  rewrite Hdup, Hlast.
  rewrite Hn, Hp, Z.eqb_refl, String.eqb_refl. reflexivity.
Qed.

(** Running [handleNewHead] up to [advanceFinality]. *)
Lemma handleNewHead_unfold (B : BlockWithTransactions) (st : ServiceState) :
  exists pre,
    handleNewHead isMatchedLogInBloomFilter filterLogs network logFilters B st =
    advanceFinality network logFilters (rpcBlockToLightBlock B)
      {| blocks := blocks st ++ [rpcBlockToLightBlock B];
         finalizedBlockNumber := finalizedBlockNumber st;
         queue := queue st; queueStarted := queueStarted st; polling := polling st;
         trace := trace st ++ pre ++ [emit (realtimeCheckpoint (bw_timestamp B))] |} /\
    (pre = [] \/
     (isMatchedLogInBloomFilter (bw_logsBloom B) filters = true /\
      filterLogs (eth_getLogs (net_client network) (bw_hash B)) filters <> [] /\
      exists txs ls, pre = [insertRealtimeBlock (net_chainId network) B txs ls])).
Proof.
  destruct (processNewHeadLogs_shape B st) as [n [pre [Heq Hpre]]].
  exists pre. split; [|exact Hpre].
  unfold handleNewHead, svc_bind. rewrite Heq.
  unfold perform, svc_modify, add_effect, set_blocks, with_trace. cbn.
  rewrite <- app_assoc. reflexivity.
Qed.

(** C1: finality advance.  On a new head block [B] with
    [B.number > finalizedBlockNumber + 2 * finalityBlockCount], over a local
    chain numbered [finalizedBlockNumber, finalizedBlockNumber + 1, ...], the
    worker selects the local block [F] with
    [F.number = finalizedBlockNumber + finalityBlockCount], keeps the local
    blocks with [number >= F.number], calls
    [insertLogFilterCachedRanges] for all filter keys with
    [startBlock = finalizedBlockNumber + 1], [endBlock = F.number],
    [endBlockTimestamp = F.timestamp], sets [finalizedBlockNumber = F.number]
    and emits [finalityCheckpoint(F.timestamp)]. *)
Theorem blockTaskWorker_advances_finality (fuel : nat) (st : ServiceState)
    (B : BlockWithTransactions) (prev : LightBlock) :
  0 <= fbc ->
  chainNumbersFrom (finalizedBlockNumber st) (blocks st) ->
  existsb (fun b => String.eqb (lb_hash b) (bw_hash B)) (blocks st) = false ->
  last (blocks st) = Some prev ->
  bw_number B = lb_number prev + 1 -> bw_parentHash B = lb_hash prev ->
  finalizedBlockNumber st + 2 * fbc < bw_number B ->
  exists F pre,
    In F (blocks st ++ [rpcBlockToLightBlock B]) /\
    lb_number F = finalizedBlockNumber st + fbc /\
    (forall e, In e pre -> isInsertRealtimeBlock e = true) /\
    worker fuel B st =
      (Ok tt,
       {| blocks := List.filter (fun b => lb_number F <=? lb_number b)
                      (blocks st ++ [rpcBlockToLightBlock B]);
          finalizedBlockNumber := lb_number F;
          queue := queue st; queueStarted := queueStarted st; polling := polling st;
          trace := trace st ++ pre ++
                   [emit (realtimeCheckpoint (bw_timestamp B));
                    insertLogFilterCachedRanges
                      (map (fun l => lfc_key (lf_filter l)) logFilters)
                      (finalizedBlockNumber st + 1) (lb_number F) (lb_timestamp F);
                    emit (finalityCheckpoint (lb_timestamp F))] |}).
Proof.
  intros Hfbc Hchain Hdup Hlast Hn Hp Hadv.
  rewrite (worker_newHead fuel st B prev Hdup Hlast Hn Hp).
  destruct (handleNewHead_unfold B st) as [pre [Heq Hpre]]. rewrite Heq.
  pose proof (chainNumbersFrom_last _ _ _ Hchain Hlast) as Hprev.
  destruct (chainNumbersFrom_member (finalizedBlockNumber st) (blocks st) fbc Hchain)
    as [b [Hbin Hbn]]; [lia|].
  destruct (find_member (fun b => lb_number b =? finalizedBlockNumber st + fbc)
              (blocks st ++ [rpcBlockToLightBlock B]) b) as [F [HF [HFin HFn]]].
  { apply in_or_app. left. exact Hbin. }
  { apply Z.eqb_eq. exact Hbn. }
  apply Z.eqb_eq in HFn.
  exists F, pre. split; [exact HFin|]. split; [exact HFn|]. split.
  { intros e He. destruct Hpre as [->|[_ [_ [txs [ls ->]]]]]; [destruct He|].
    destruct He as [<-|[]]. reflexivity. }
  unfold advanceFinality, svc_bind, svc_get, finalityBlockCount. cbn [finalizedBlockNumber blocks].
  replace (finalizedBlockNumber st + 2 * fbc <? lb_number (rpcBlockToLightBlock B)) with true
    by (symmetry; apply Z.ltb_lt; cbn; lia).
  rewrite HF.
  unfold perform, svc_modify, add_effect, set_blocks, set_finalizedBlockNumber. cbn.
  rewrite <- !app_assoc. reflexivity.
Qed.

(** C7: a new head block whose bloom pre-screen passes but whose filtered
    logs are empty is not written with [insertRealtimeBlock]; it is still
    appended to the local chain (and stays its head) and
    [realtimeCheckpoint(B.timestamp)] is emitted, whatever the rest of the
    task does. *)
Theorem blockTaskWorker_false_positive_not_inserted (fuel : nat) (st : ServiceState)
    (B : BlockWithTransactions) (prev : LightBlock) :
  0 <= fbc ->
  existsb (fun b => String.eqb (lb_hash b) (bw_hash B)) (blocks st) = false ->
  last (blocks st) = Some prev ->
  bw_number B = lb_number prev + 1 -> bw_parentHash B = lb_hash prev ->
  isMatchedLogInBloomFilter (bw_logsBloom B) filters = true ->
  filterLogs (eth_getLogs (net_client network) (bw_hash B)) filters = [] ->
  exists r st' new,
    worker fuel B st = (r, st') /\
    trace st' = trace st ++ emit (realtimeCheckpoint (bw_timestamp B)) :: new /\
    forallb (fun e => negb (isInsertRealtimeBlock e)) new = true /\
    last (blocks st') = Some (rpcBlockToLightBlock B).
Proof.
  intros Hfbc Hdup Hlast Hn Hp Hbloom Hempty.
  rewrite (worker_newHead fuel st B prev Hdup Hlast Hn Hp).
  destruct (handleNewHead_unfold B st) as [pre [Heq Hpre]]. rewrite Heq.
  destruct Hpre as [->|[_ [Hne _]]]; [|contradiction].
  unfold advanceFinality, svc_bind, svc_get, finalityBlockCount. cbn [finalizedBlockNumber blocks].
  destruct (finalizedBlockNumber st + 2 * fbc <? lb_number (rpcBlockToLightBlock B)) eqn:Hadv.
  - apply Z.ltb_lt in Hadv.
    destruct (List.find _ (blocks st ++ [rpcBlockToLightBlock B])) as [F|] eqn:HF.
    + apply List.find_some in HF as [_ HFn]. apply Z.eqb_eq in HFn.
      unfold perform, svc_modify, add_effect, set_blocks, set_finalizedBlockNumber.
      cbn [blocks trace].
      do 3 eexists. split; [reflexivity|]. cbn [trace blocks]. split.
      * rewrite <- !app_assoc. reflexivity.
      * split; [reflexivity|]. apply last_filter_snoc. apply Z.leb_le. cbn in *. lia.
    + do 3 eexists. split; [reflexivity|]. cbn [trace blocks]. split.
      * reflexivity.
      * split; [reflexivity|]. apply last_snoc.
  - do 3 eexists. split; [reflexivity|]. cbn [trace blocks]. split.
    + reflexivity.
    + split; [reflexivity|]. apply last_snoc.
Qed.

Lemma worker_reorg (fuel : nat) (st : ServiceState) (B : BlockWithTransactions)
    (prev : LightBlock) :
  existsb (fun b => String.eqb (lb_hash b) (bw_hash B)) (blocks st) = false ->
  last (blocks st) = Some prev ->
  ((bw_number B =? lb_number prev + 1) && String.eqb (bw_parentHash B) (lb_hash prev))%bool
    = false ->
  bw_number B <= lb_number prev + 1 ->
  worker fuel B st = handleReorg network fuel B st.
Proof.
  intros Hdup Hlast Hnew Hle. unfold blockTaskWorker, svc_bind, svc_get, rpcBlockToLightBlock.
  cbn [lb_hash lb_number lb_parentHash].
  rewrite Hdup, Hlast, Hnew.
  replace (lb_number prev + 1 <? bw_number B) with false by (symmetry; apply Z.ltb_ge; lia).
  reflexivity.
Qed.

Local Abbreviation byHash := (eth_getBlockByHash (net_client network)).

(** The canonical blocks a traversal ends with are the ones it started
    with, preceded by the fetched parents, one per unit of depth. *)
Lemma traverseCanonical_fetched (localChain : list LightBlock) (fin : Z) (fuel : nat)
    (canonical : list BlockWithTransactions) (cur : LightBlock) (depth : nat) :
  match traverseCanonical network localChain fin fuel canonical cur depth with
  | AncestorFound _ c d | ReachedFinalized c d =>
      exists fetched, c = fetched ++ canonical /\ d = (depth + length fetched)%nat /\
        Forall (fun p => exists h, byHash h = Some p) fetched
  | _ => True
  end.
Proof.
  revert canonical cur depth. induction fuel as [|fuel IH]; intros canonical cur depth;
    [exact I|].
  cbn [traverseCanonical]. unfold client.
  destruct (fin <? lb_number cur).
  - destruct (List.find _ localChain).
    + exists []. split; [reflexivity|]. cbn [length]. split; [lia | constructor].
    + destruct (byHash (lb_parentHash cur)) as [p|] eqn:Hp; [|exact I].
      specialize (IH (p :: canonical) (rpcBlockToLightBlock p) (S depth)).
      assert (Hp' : Forall (fun p => exists h, byHash h = Some p) [p])
        by (constructor; [eauto | constructor]).
      destruct (traverseCanonical _ _ _ _ _ _ _); try exact I;
        destruct IH as [fetched [-> [-> Hf]]];
        exists (fetched ++ [p]); rewrite <- app_assoc; (split; [reflexivity|]);
        rewrite length_app; cbn [length]; (split; [lia|]);
        apply Forall_app; split; assumption.
  - exists []. split; [reflexivity|]. cbn [length]. split; [lia | constructor].
Qed.

(** The traversal stops at a common ancestor of the local chain: the parent
    of a cursor above the finalized block. *)
Lemma traverseCanonical_found (localChain : list LightBlock) (fin : Z) (fuel : nat)
    (canonical : list BlockWithTransactions) (cur : LightBlock) (depth : nat)
    (A : LightBlock) (c : list BlockWithTransactions) (d : nat) :
  traverseCanonical network localChain fin fuel canonical cur depth = AncestorFound A c d ->
  In A localChain /\
  exists cursor, fin < lb_number cursor /\ lb_hash A = lb_parentHash cursor.
Proof.
  revert canonical cur depth. induction fuel as [|fuel IH]; intros canonical cur depth H;
    [discriminate|].
  cbn [traverseCanonical] in H. unfold client in H.
  destruct (fin <? lb_number cur) eqn:Hlt; [|discriminate].
  destruct (List.find _ localChain) as [A'|] eqn:Hf.
  - injection H as <- _ _. apply List.find_some in Hf as [Hin Heq].
    apply String.eqb_eq in Heq. apply Z.ltb_lt in Hlt. eauto.
  - destruct (byHash (lb_parentHash cur)); [|discriminate]. eapply IH. exact H.
Qed.

(** With an RPC endpoint whose blocks have parents of lower numbers, the
    canonical blocks of a traversal are in ascending number order. *)
Lemma traverseCanonical_ascending (B : BlockWithTransactions)
    (localChain : list LightBlock) (fin : Z) (fuel : nat)
    (x : BlockWithTransactions) (r : list BlockWithTransactions) (depth : nat) :
  (forall y p, (y = B \/ exists h, byHash h = Some y) ->
               byHash (bw_parentHash y) = Some p -> bw_number p < bw_number y) ->
  (x = B \/ exists h, byHash h = Some x) ->
  Sorted (fun a b => bw_number a < bw_number b) (x :: r) ->
  match traverseCanonical network localChain fin fuel (x :: r) (rpcBlockToLightBlock x) depth with
  | AncestorFound _ c _ | ReachedFinalized c _ =>
      Sorted (fun a b => bw_number a < bw_number b) c
  | _ => True
  end.
Proof.
  intros Hrpc. revert x r depth. induction fuel as [|fuel IH]; intros x r depth Hx Hs;
    [exact I|].
  cbn [traverseCanonical]. unfold client.
  destruct (fin <? lb_number (rpcBlockToLightBlock x)); [|exact Hs].
  destruct (List.find _ localChain); [exact Hs|].
  cbn [lb_parentHash rpcBlockToLightBlock].
  destruct (byHash (bw_parentHash x)) as [p|] eqn:Hp; [|exact I].
  apply IH; [eauto|].
  constructor; [exact Hs|]. constructor. exact (Hrpc x p Hx Hp).
Qed.

Lemma forM_addTask (l : list BlockWithTransactions) (st : ServiceState) :
  svc_forM l (fun b => addTask b (MAX_SAFE_INTEGER - bw_number b)) st =
  (Ok tt, set_queue (queue st ++ map (fun b => (b, MAX_SAFE_INTEGER - bw_number b)) l) st).
Proof.
  revert st. induction l as [|b l IH]; intros st.
  - cbn. rewrite app_nil_r. destruct st; reflexivity.
  - cbn [svc_forM]. unfold svc_bind at 1, addTask at 1, svc_modify at 1.
    rewrite IH. cbn. rewrite <- app_assoc. reflexivity.
Qed.

(** C2: shallow reorg.  When the traversal of a reorg task [B] finds the
    common ancestor [A] (the local block whose hash is the parent hash of a
    cursor above the finalized block), the worker keeps the local blocks
    with [number <= A.number], calls [deleteRealtimeData(A.number + 1)],
    clears the queue, enqueues the canonical blocks (the fetched parents,
    oldest first, then [B]) with priority [MAX_SAFE_INTEGER - number], then
    one freshly fetched latest block, and emits
    [shallowReorg(A.timestamp)].  With an endpoint whose blocks have
    lower-numbered parents, the canonical blocks are in ascending number
    order. *)
Theorem blockTaskWorker_shallow_reorg (fuel : nat) (st : ServiceState)
    (B : BlockWithTransactions) (prev : LightBlock) (A : LightBlock)
    (canonical : list BlockWithTransactions) (depth : nat) (L : BlockWithTransactions) :
  existsb (fun b => String.eqb (lb_hash b) (bw_hash B)) (blocks st) = false ->
  last (blocks st) = Some prev ->
  ((bw_number B =? lb_number prev + 1) && String.eqb (bw_parentHash B) (lb_hash prev))%bool
    = false ->
  bw_number B <= lb_number prev + 1 ->
  traverseCanonical network (blocks st) (finalizedBlockNumber st) fuel [B]
    (rpcBlockToLightBlock B) 0 = AncestorFound A canonical depth ->
  eth_getBlockByNumber_latest (net_client network) = Some L ->
  (In A (blocks st) /\
   exists cursor, finalizedBlockNumber st < lb_number cursor /\
                  lb_hash A = lb_parentHash cursor) /\
  (exists fetched, canonical = fetched ++ [B] /\ depth = length fetched) /\
  worker fuel B st =
    (Ok tt,
     {| blocks := List.filter (fun b => lb_number b <=? lb_number A) (blocks st);
        finalizedBlockNumber := finalizedBlockNumber st;
        queue := map (fun b => (b, MAX_SAFE_INTEGER - bw_number b)) canonical
                 ++ [(L, MAX_SAFE_INTEGER - bw_number L)];
        queueStarted := queueStarted st; polling := polling st;
        trace := trace st ++ [deleteRealtimeData (net_chainId network) (lb_number A + 1);
                              emit (shallowReorg (lb_timestamp A))] |}) /\
  ((forall y p, (y = B \/ exists h, byHash h = Some y) ->
                byHash (bw_parentHash y) = Some p -> bw_number p < bw_number y) ->
   Sorted (fun a b => bw_number a < bw_number b) canonical).
Proof.
  intros Hdup Hlast Hnew Hle Htr HL.
  split; [exact (traverseCanonical_found _ _ _ _ _ _ _ _ _ Htr)|].
  split.
  { pose proof (traverseCanonical_fetched (blocks st) (finalizedBlockNumber st) fuel [B]
                  (rpcBlockToLightBlock B) 0) as Hf.
    rewrite Htr in Hf. destruct Hf as [fetched [-> [-> _]]]. eauto. }
  split.
  - rewrite (worker_reorg fuel st B prev Hdup Hlast Hnew Hle).
    unfold handleReorg, svc_bind at 1, svc_get. rewrite Htr.
    unfold svc_bind, svc_modify, perform, clearQueue, add_effect, set_blocks, set_queue.
    cbn -[svc_forM addNewLatestBlock].
    rewrite forM_addTask.
    unfold addNewLatestBlock, getLatestBlock, client, svc_bind. rewrite HL.
    unfold svc_ret, addTask, svc_modify, set_queue. cbn. rewrite <- app_assoc. reflexivity.
  - intros Hrpc.
    pose proof (traverseCanonical_ascending B (blocks st) (finalizedBlockNumber st) fuel B []
                  0 Hrpc (or_introl eq_refl)) as Hs.
    rewrite Htr in Hs. apply Hs. constructor; constructor.
Qed.

(** C8: deep reorg.  When the traversal of a reorg task [B] reaches a cursor
    at or below the finalized block without finding a common ancestor, the
    worker only emits [deepReorg(B.number, depth)], where [depth] is the
    number of parent blocks it fetched: the local chain,
    [finalizedBlockNumber], the queue and the event store (no store call in
    the trace) are unchanged. *)
Theorem blockTaskWorker_deep_reorg (fuel : nat) (st : ServiceState)
    (B : BlockWithTransactions) (prev : LightBlock)
    (canonical : list BlockWithTransactions) (depth : nat) :
  existsb (fun b => String.eqb (lb_hash b) (bw_hash B)) (blocks st) = false ->
  last (blocks st) = Some prev ->
  ((bw_number B =? lb_number prev + 1) && String.eqb (bw_parentHash B) (lb_hash prev))%bool
    = false ->
  bw_number B <= lb_number prev + 1 ->
  traverseCanonical network (blocks st) (finalizedBlockNumber st) fuel [B]
    (rpcBlockToLightBlock B) 0 = ReachedFinalized canonical depth ->
  (exists fetched, canonical = fetched ++ [B] /\ depth = length fetched /\
     Forall (fun p => exists h, byHash h = Some p) fetched) /\
  worker fuel B st =
    (Ok tt, with_trace (trace st ++ [emit (deepReorg (bw_number B) (Z.of_nat depth))]) st).
Proof.
  intros Hdup Hlast Hnew Hle Htr. split.
  - pose proof (traverseCanonical_fetched (blocks st) (finalizedBlockNumber st) fuel [B]
                  (rpcBlockToLightBlock B) 0) as Hf.
    rewrite Htr in Hf. exact Hf.
  - rewrite (worker_reorg fuel st B prev Hdup Hlast Hnew Hle).
    unfold handleReorg, svc_bind, svc_get. rewrite Htr.
    reflexivity.
Qed.

End RealtimeSyncProofs.

Lemma allLogFiltersEnded_spec (lfs : list LogFilter) (fin : Z) :
  allLogFiltersEnded lfs fin = true <->
  forall f, In f lfs -> exists e, lfc_endBlock (lf_filter f) = Some e /\ e < fin.
Proof.
  unfold allLogFiltersEnded. rewrite forallb_forall. split.
  - intros H f Hf. specialize (H f Hf).
    destruct (lfc_endBlock (lf_filter f)) as [e|]; [|discriminate].
    apply Z.ltb_lt in H. eauto.
  - intros H f Hf. destruct (H f Hf) as [e [-> He]]. apply Z.ltb_lt. exact He.
Qed.


(** C6 (as stated, refuted): a log filter whose [endBlock] equals
    [finalizedBlockNumber] satisfies "every endBlock <= finalizedBlockNumber",
    yet [start] seeds the local chain, starts the queue and polls, since its
    guard is [endBlock < finalizedBlockNumber]. *)
Lemma start_endBlock_equal_finalized_polls :
  let net := sample_network 10 sample_client in
  let lfs := [sample_filter (Some 5)] in
  let st := sample_state [] 5 [(sample_block "h6" 6 "h5", 0)] in
  (forall f, In f lfs -> exists e, lfc_endBlock (lf_filter f) = Some e /\
                                   e <= finalizedBlockNumber st) /\
  snd (start net lfs st) <> st /\
  polling (snd (start net lfs st)) = true /\
  blocks (snd (start net lfs st)) = [sample_light "h" 5 "p"].
Proof.
  cbv zeta. split.
  - intros f [<-|[]]. exists 5. split; [reflexivity | cbn; lia].
  - vm_compute. split; [discriminate|]. split; reflexivity.
Qed.

(** C6 (amended): [start] returns with the state unchanged (no seeding, no
    queue start, no polling) when every configured log filter has a defined
    [endBlock] strictly below [finalizedBlockNumber]; otherwise, with a
    non-empty queue (setup done) and the finalized block fetched, it appends
    that block's light form to the local chain, starts the queue and begins
    polling; with an empty queue it throws. *)
Theorem start_returns_early_iff_all_ended (network : Network) (logFilters : list LogFilter)
    (st : ServiceState) :
  ((forall f, In f logFilters ->
       exists e, lfc_endBlock (lf_filter f) = Some e /\ e < finalizedBlockNumber st) ->
   start network logFilters st = (Ok tt, st)) /\
  (~ (forall f, In f logFilters ->
       exists e, lfc_endBlock (lf_filter f) = Some e /\ e < finalizedBlockNumber st) ->
   queue st <> [] ->
   forall finalizedBlock,
     eth_getBlockByNumber (net_client network) (finalizedBlockNumber st) = Some finalizedBlock ->
     start network logFilters st =
       (Ok tt, {| blocks := blocks st ++ [rpcBlockToLightBlock finalizedBlock];
                  finalizedBlockNumber := finalizedBlockNumber st; queue := queue st;
                  queueStarted := true; polling := true; trace := trace st |})) /\
  (~ (forall f, In f logFilters ->
       exists e, lfc_endBlock (lf_filter f) = Some e /\ e < finalizedBlockNumber st) ->
   queue st = [] ->
   start network logFilters st =
     (Throw "Unable to start. Must call setup() method before start().", st)).
Proof.
  rewrite <- allLogFiltersEnded_spec.
  unfold start, svc_bind, svc_get.
  split; [|split].
  - intros ->. reflexivity.
  - intros Hnot Hq fb Hfb. apply not_true_is_false in Hnot. rewrite Hnot.
    destruct (queue st) as [|t q] eqn:Hqe; [contradiction|].
    cbn [length Nat.eqb]. unfold client. rewrite Hfb.
    unfold svc_modify, set_blocks, set_started, set_polling. cbn. rewrite Hqe. reflexivity.
  - intros Hnot Hq. apply not_true_is_false in Hnot. rewrite Hnot, Hq. reflexivity.
Qed.

(** Witness of C1 (scenario 4 of the spec): finality 10, finalized 100, local
    chain 100..120, block 121 extends it; [F] is block 110. *)
Lemma blockTaskWorker_advances_finality_witness :
  exists F pre,
    In F (sample_chain 100 21 ++ [rpcBlockToLightBlock (sample_block "new" 121 "h")]) /\
    lb_number F = 100 + 10 /\
    (forall e, In e pre -> isInsertRealtimeBlock e = true) /\
    blockTaskWorker (fun _ _ => false) (fun ls _ => ls) (sample_network 10 sample_client)
      [sample_filter None] 0 (sample_block "new" 121 "h")
      (sample_state (sample_chain 100 21) 100 []) =
      (Ok tt,
       {| blocks := List.filter (fun b => lb_number F <=? lb_number b)
                      (sample_chain 100 21 ++ [rpcBlockToLightBlock (sample_block "new" 121 "h")]);
          finalizedBlockNumber := lb_number F;
          queue := []; queueStarted := false; polling := false;
          trace := [] ++ pre ++
                   [emit (realtimeCheckpoint 1121);
                    insertLogFilterCachedRanges ["key"] (100 + 1) (lb_number F) (lb_timestamp F);
                    emit (finalityCheckpoint (lb_timestamp F))] |}).
Proof.
  apply (blockTaskWorker_advances_finality (fun _ _ => false) (fun ls _ => ls)
           (sample_network 10 sample_client) [sample_filter None] 0
           (sample_state (sample_chain 100 21) 100 []) (sample_block "new" 121 "h")
           (sample_light "h" 120 "h")).
  - cbn. lia.
  - vm_compute. repeat constructor.
  - vm_compute. reflexivity.
  - vm_compute. reflexivity.
  - vm_compute. reflexivity.
  - vm_compute. reflexivity.
  - vm_compute. reflexivity.
Defined.

(** Witness of C7: a bloom false positive on block 101 over the local chain
    [100]. *)
Lemma blockTaskWorker_false_positive_not_inserted_witness :
  exists r st' new,
    blockTaskWorker (fun _ _ => true) (fun _ _ => []) (sample_network 10 sample_client)
      [sample_filter None] 0 (sample_block "new" 101 "h")
      (sample_state (sample_chain 100 1) 100 []) = (r, st') /\
    trace st' = [] ++ emit (realtimeCheckpoint 1101) :: new /\
    forallb (fun e => negb (isInsertRealtimeBlock e)) new = true /\
    last (blocks st') = Some (rpcBlockToLightBlock (sample_block "new" 101 "h")).
Proof.
  apply (blockTaskWorker_false_positive_not_inserted (fun _ _ => true) (fun _ _ => [])
           (sample_network 10 sample_client) [sample_filter None] 0
           (sample_state (sample_chain 100 1) 100 []) (sample_block "new" 101 "h")
           (sample_light "h" 100 "h")).
  - cbn. lia.
  - vm_compute. reflexivity.
  - vm_compute. reflexivity.
  - vm_compute. reflexivity.
  - vm_compute. reflexivity.
  - vm_compute. reflexivity.
  - vm_compute. reflexivity.
Defined.

(** Witness of C2 (scenario 3 of the spec): block 101 with parent [X]; the
    fetched [X] (block 100) has the local parent [H99]: the common ancestor
    is block 99; the canonical blocks 100 and 101 are enqueued, then the
    latest block. *)
Lemma blockTaskWorker_shallow_reorg_witness :
  blockTaskWorker (fun _ _ => false) (fun ls _ => ls) (sample_network 10 fork_client)
    [sample_filter None] 5 (sample_block "B101" 101 "X")
    (sample_state reorg_chain 98 [(sample_block "old" 102 "H101", 7)]) =
  (Ok tt,
   {| blocks := [sample_light "H98" 98 "H97"; sample_light "H99" 99 "H98"];
      finalizedBlockNumber := 98;
      queue := [(sample_block "X" 100 "H99", MAX_SAFE_INTEGER - 100);
                (sample_block "B101" 101 "X", MAX_SAFE_INTEGER - 101);
                (sample_block "latest" 200 "p", MAX_SAFE_INTEGER - 200)];
      queueStarted := false; polling := false;
      trace := [] ++ [deleteRealtimeData 1 (99 + 1); emit (shallowReorg 1099)] |}).
Proof.
  destruct (blockTaskWorker_shallow_reorg (fun _ _ => false) (fun ls _ => ls)
              (sample_network 10 fork_client) [sample_filter None] 5
              (sample_state reorg_chain 98 [(sample_block "old" 102 "H101", 7)])
              (sample_block "B101" 101 "X") (sample_light "H100" 100 "H99")
              (sample_light "H99" 99 "H98")
              [sample_block "X" 100 "H99"; sample_block "B101" 101 "X"] 1
              (sample_block "latest" 200 "p"))
    as [_ [_ [Hrun _]]].
  - vm_compute. reflexivity.
  - vm_compute. reflexivity.
  - vm_compute. reflexivity.
  - cbn. lia.
  - vm_compute. reflexivity.
  - vm_compute. reflexivity.
  - rewrite Hrun. vm_compute. reflexivity.
Defined.

(** Witness of C8: local chain [98 <- 99 <- 100 <- 101 <- 102] finalized at
    100; block 102 on the fork [Y101 <- Y100] reaches block 100 after two
    fetches: [deepReorg(102, 2)]. *)
Lemma blockTaskWorker_deep_reorg_witness :
  blockTaskWorker (fun _ _ => false) (fun ls _ => ls) (sample_network 10 fork_client)
    [sample_filter None] 5 (sample_block "Y102" 102 "Y101")
    (sample_state (reorg_chain ++ [sample_light "H101" 101 "H100";
                                   sample_light "H102" 102 "H101"]) 100 []) =
  (Ok tt, with_trace ([] ++ [emit (deepReorg 102 2)])
            (sample_state (reorg_chain ++ [sample_light "H101" 101 "H100";
                                           sample_light "H102" 102 "H101"]) 100 [])).
Proof.
  destruct (blockTaskWorker_deep_reorg (fun _ _ => false) (fun ls _ => ls)
              (sample_network 10 fork_client) [sample_filter None] 5
              (sample_state (reorg_chain ++ [sample_light "H101" 101 "H100";
                                             sample_light "H102" 102 "H101"]) 100 [])
              (sample_block "Y102" 102 "Y101") (sample_light "H102" 102 "H101")
              [sample_block "Y100" 100 "Y99"; sample_block "Y101" 101 "Y100";
               sample_block "Y102" 102 "Y101"] 2)
    as [_ Hrun].
  - vm_compute. reflexivity.
  - vm_compute. reflexivity.
  - vm_compute. reflexivity.
  - cbn. lia.
  - vm_compute. reflexivity.
  - exact Hrun.
Defined.

(* ================================================================== *)
(** ** Cached intervals: theorems *)

Section MergeIntervalsProofs.

#[local] Instance startLe_trans : Transitive startLe.
Proof. unfold startLe. intros x y z. lia. Qed.

Lemma insertByStart_perm (x : Z * Z) (l : list (Z * Z)) :
  Permutation (insertByStart x l) (x :: l).
Proof.
  induction l as [|y r IH]; cbn; [reflexivity|].
  destruct (fst x <=? fst y); [reflexivity|].
  rewrite IH. apply perm_swap.
Qed.

Lemma sortByStart_perm (l : list (Z * Z)) : Permutation (sortByStart l) l.
Proof.
  induction l as [|x r IH]; cbn; [reflexivity|].
  rewrite insertByStart_perm. apply perm_skip. exact IH.
Qed.

Lemma insertByStart_sorted (x : Z * Z) (l : list (Z * Z)) :
  Sorted startLe l -> Sorted startLe (insertByStart x l).
Proof.
  induction 1 as [|y r Hs IH Hhd]; cbn.
  - repeat constructor.
  - destruct (fst x <=? fst y) eqn:Hxy.
    + apply Z.leb_le in Hxy. constructor; [constructor; assumption | constructor; exact Hxy].
    + apply Z.leb_gt in Hxy. constructor; [exact IH|].
      destruct r as [|z r']; cbn.
      * constructor. unfold startLe. lia.
      * inversion Hhd as [|? ? Hyz]; subst.
        destruct (fst x <=? fst z); constructor; unfold startLe in *; lia.
Qed.

Lemma sortByStart_sorted (l : list (Z * Z)) : StronglySorted startLe (sortByStart l).
Proof.
  apply Sorted_StronglySorted; [exact startLe_trans|].
  induction l as [|x r IH]; cbn; [constructor|].
  apply insertByStart_sorted. exact IH.
Qed.

Lemma sweep_head (rest : list (Z * Z)) (cur : Z * Z) :
  StronglySorted startLe (cur :: rest) ->
  exists e tl, sweepIntervals cur rest = (fst cur, e) :: tl.
Proof.
  revert cur. induction rest as [|nx r IH]; intros cur Hs; cbn.
  - destruct cur as [a b]. eauto.
  - inversion Hs as [|? ? Hs' Hall]; subst.
    inversion Hall as [|? ? Hle Hall']; subst. unfold startLe in Hle.
    destruct (_ <=? _).
    + destruct (IH (Z.min (fst cur) (fst nx), Z.max (snd cur) (snd nx))) as [e [tl Heq]].
      { constructor.
        - inversion Hs'; assumption.
        - eapply Forall_impl; [exact Hall'|]. unfold startLe. cbn. intros y Hy. lia. }
      rewrite Heq. cbn. replace (Z.min (fst cur) (fst nx)) with (fst cur) by lia. eauto.
    + destruct cur as [a b]. eauto.
Qed.

Lemma sweep_chain (rest : list (Z * Z)) (cur : Z * Z) :
  StronglySorted startLe (cur :: rest) -> fst cur <= snd cur ->
  Forall (fun x => fst x <= snd x) rest ->
  chainIntervals (sweepIntervals cur rest).
Proof.
  revert cur. induction rest as [|nx r IH]; intros cur Hs Hwf Hwfs; cbn.
  - tauto.
  - inversion Hs as [|? ? Hs' Hall]; subst.
    inversion Hall as [|? ? Hle Hall']; subst. unfold startLe in Hle.
    inversion Hwfs as [|? ? Hwn Hwr]; subst.
    destruct (Z.max (fst cur) (fst nx) <=? Z.min (snd cur) (snd nx) + 1) eqn:Hc.
    + apply IH; [| cbn; lia | exact Hwr].
      constructor.
      * inversion Hs'; assumption.
      * eapply Forall_impl; [exact Hall'|]. unfold startLe. cbn. intros y Hy. lia.
    + apply Z.leb_gt in Hc.
      destruct (sweep_head r nx Hs') as [e [tl Heq]].
      split; [exact Hwf|]. rewrite Heq. cbn [fst]. split; [lia|].
      rewrite <- Heq. apply IH; assumption.
Qed.

Lemma coversBlock_cons (x : Z * Z) (l : list (Z * Z)) (n : Z) :
  coversBlock (x :: l) n <-> (fst x <= n <= snd x \/ coversBlock l n).
Proof.
  unfold coversBlock. split.
  - intros [y [[Hy|Hy] Hn]]; [subst y; left; exact Hn | right; exists y; tauto].
  - intros [Hn|[y [Hy Hn]]]; [exists x; split; [left; reflexivity | exact Hn]|].
    exists y. split; [right; exact Hy | exact Hn].
Qed.

Lemma sweep_covers (rest : list (Z * Z)) (cur : Z * Z) (n : Z) :
  StronglySorted startLe (cur :: rest) -> fst cur <= snd cur ->
  Forall (fun x => fst x <= snd x) rest ->
  coversBlock (sweepIntervals cur rest) n <-> coversBlock (cur :: rest) n.
Proof.
  revert cur. induction rest as [|nx r IH]; intros cur Hs Hwf Hwfs; cbn; [reflexivity|].
  inversion Hs as [|? ? Hs' Hall]; subst.
  inversion Hall as [|? ? Hle Hall']; subst. unfold startLe in Hle.
  inversion Hwfs as [|? ? Hwn Hwr]; subst.
  destruct (Z.max (fst cur) (fst nx) <=? Z.min (snd cur) (snd nx) + 1) eqn:Hc.
  - apply Z.leb_le in Hc.
    rewrite IH; [| | cbn; lia | exact Hwr].
    + rewrite !coversBlock_cons. cbn [fst snd]. split.
      * intros [Hn|Hn]; [|right; right; exact Hn].
        destruct (Z.le_gt_cases n (snd cur)); [left; lia | right; left; lia].
      * intros [Hn|[Hn|Hn]]; [left; lia | left; lia | right; exact Hn].
    + constructor.
      * inversion Hs'; assumption.
      * eapply Forall_impl; [exact Hall'|]. unfold startLe. cbn. intros y Hy. lia.
  - rewrite !coversBlock_cons, IH by assumption. rewrite coversBlock_cons. reflexivity.
Qed.

Lemma sweep_ends (rest : list (Z * Z)) (cur x : Z * Z) :
  In x (sweepIntervals cur rest) -> exists y, In y (cur :: rest) /\ snd y = snd x.
Proof.
  revert cur. induction rest as [|nx r IH]; intros cur Hin; cbn in Hin.
  - destruct Hin as [Hx|[]]. subst x. exists cur. split; [left|]; reflexivity.
  - destruct (_ <=? _).
    + destruct (IH _ Hin) as [y [[Hy|Hy] Hey]].
      * subst y. cbn in Hey.
        destruct (Z.max_spec (snd cur) (snd nx)) as [[_ Hm]|[_ Hm]]; rewrite Hm in Hey.
        -- exists nx. split; [right; left; reflexivity | exact Hey].
        -- exists cur. split; [left; reflexivity | exact Hey].
      * exists y. split; [right; right; exact Hy | exact Hey].
    + destruct Hin as [Hx|Hin].
      * subst x. exists cur. split; [left|]; reflexivity.
      * destruct (IH _ Hin) as [y [Hy Hey]]. exists y. split; [right; exact Hy | exact Hey].
Qed.

Lemma merge_intervals_chain (l : list (Z * Z)) :
  Forall (fun x => fst x <= snd x) l -> chainIntervals (merge_intervals l).
Proof.
  intros Hwf. unfold merge_intervals.
  pose proof (sortByStart_sorted l) as Hs.
  assert (Hwf' : Forall (fun x => fst x <= snd x) (sortByStart l)).
  { eapply Permutation_Forall; [symmetry; apply sortByStart_perm | exact Hwf]. }
  destruct (sortByStart l) as [|x r]; [exact I|].
  inversion Hwf'; subst. apply sweep_chain; assumption.
Qed.

Lemma coversBlock_perm (l l' : list (Z * Z)) (n : Z) :
  Permutation l l' -> coversBlock l n <-> coversBlock l' n.
Proof.
  intros Hp. unfold coversBlock. split; intros [x [Hx Hn]]; exists x; split; try exact Hn.
  - eapply Permutation_in; [exact Hp | exact Hx].
  - eapply Permutation_in; [symmetry; exact Hp | exact Hx].
Qed.

Lemma merge_intervals_covers (l : list (Z * Z)) (n : Z) :
  Forall (fun x => fst x <= snd x) l ->
  coversBlock (merge_intervals l) n <-> coversBlock l n.
Proof.
  intros Hwf. unfold merge_intervals.
  pose proof (sortByStart_sorted l) as Hs.
  pose proof (sortByStart_perm l) as Hp.
  assert (Hwf' : Forall (fun x => fst x <= snd x) (sortByStart l)).
  { eapply Permutation_Forall; [symmetry; exact Hp | exact Hwf]. }
  rewrite <- (coversBlock_perm _ _ n Hp).
  destruct (sortByStart l) as [|x r]; [reflexivity|].
  inversion Hwf'; subst. apply sweep_covers; assumption.
Qed.

Lemma merge_intervals_ends (l : list (Z * Z)) (x : Z * Z) :
  In x (merge_intervals l) -> exists y, In y l /\ snd y = snd x.
Proof.
  unfold merge_intervals. pose proof (sortByStart_perm l) as Hp.
  destruct (sortByStart l) as [|c r]; [intros []|].
  intros Hin. destruct (sweep_ends r c x Hin) as [y [Hy Hey]].
  exists y. split; [eapply Permutation_in; [exact Hp | exact Hy] | exact Hey].
Qed.

Lemma chain_tail_above (x : Z * Z) (l : list (Z * Z)) :
  chainIntervals (x :: l) -> Forall (fun y => snd x + 1 < fst y) l.
Proof.
  revert x. induction l as [|y r IH]; intros x Hc; [constructor|].
  destruct Hc as [Hx [Hxy Hc]]. constructor; [exact Hxy|].
  pose proof (IH y Hc) as Hr. destruct Hc as [Hy _].
  eapply Forall_impl; [exact Hr|]. intros z Hz. cbn in Hz. lia.
Qed.

Lemma chain_covers_below (x : Z * Z) (l : list (Z * Z)) (n : Z) :
  chainIntervals (x :: l) -> coversBlock l n -> snd x + 1 < n.
Proof.
  intros Hc [y [Hy Hn]]. pose proof (chain_tail_above x l Hc) as Ha.
  rewrite List.Forall_forall in Ha. specialize (Ha y Hy). lia.
Qed.

Lemma chain_covers_start (x : Z * Z) (l : list (Z * Z)) (n : Z) :
  chainIntervals (x :: l) -> coversBlock (x :: l) n -> fst x <= n.
Proof.
  intros Hc Hn. rewrite coversBlock_cons in Hn. destruct Hn as [Hn|Hn]; [lia|].
  pose proof (chain_covers_below x l n Hc Hn). destruct Hc. lia.
Qed.

(** A chain is determined by the set of blocks it covers. *)
Lemma chain_unique (l1 l2 : list (Z * Z)) :
  chainIntervals l1 -> chainIntervals l2 ->
  (forall n, coversBlock l1 n <-> coversBlock l2 n) -> l1 = l2.
Proof.
  revert l2. induction l1 as [|[a b] r1 IH]; intros l2 Hc1 Hc2 Hcov.
  - destruct l2 as [|[c d] r2]; [reflexivity|].
    destruct Hc2 as [Hcd _]. cbn in Hcd.
    destruct (proj2 (Hcov c)) as [y [[] _]].
    rewrite coversBlock_cons. left. cbn. lia.
  - destruct l2 as [|[c d] r2].
    { destruct Hc1 as [Hab _]. cbn in Hab.
      destruct (proj1 (Hcov a)) as [y [[] _]].
      rewrite coversBlock_cons. left. cbn. lia. }
    pose proof Hc1 as Hc1'. pose proof Hc2 as Hc2'.
    destruct Hc1 as [Hab [_ Hr1]]. destruct Hc2 as [Hcd [_ Hr2]]. cbn in Hab, Hcd.
    assert (Hac : a = c).
    { pose proof (chain_covers_start _ _ c Hc1' (proj2 (Hcov c) ltac:(rewrite coversBlock_cons; left; cbn; lia))).
      pose proof (chain_covers_start _ _ a Hc2' (proj1 (Hcov a) ltac:(rewrite coversBlock_cons; left; cbn; lia))).
      cbn in *. lia. }
    subst c.
    assert (Hbd : b = d).
    { destruct (Z.lt_total b d) as [Hlt|[Heq|Hlt]]; [exfalso| exact Heq | exfalso].
      - destruct (proj2 (Hcov (b + 1)) ltac:(rewrite coversBlock_cons; left; cbn; lia)) as [y [[Hy|Hy] Hn]].
        + subst y. cbn in Hn. lia.
        + pose proof (chain_covers_below _ _ (b + 1) Hc1' (ex_intro _ y (conj Hy Hn))). cbn in *. lia.
      - destruct (proj1 (Hcov (d + 1)) ltac:(rewrite coversBlock_cons; left; cbn; lia)) as [y [[Hy|Hy] Hn]].
        + subst y. cbn in Hn. lia.
        + pose proof (chain_covers_below _ _ (d + 1) Hc2' (ex_intro _ y (conj Hy Hn))). cbn in *. lia. }
    subst d. f_equal. apply IH; [exact Hr1 | exact Hr2|].
    intros n. split; intros Hn.
    + pose proof (chain_covers_below _ _ n Hc1' Hn) as Hbn. cbn in Hbn.
      assert (H : coversBlock ((a, b) :: r2) n).
      { apply Hcov. rewrite coversBlock_cons. right. exact Hn. }
      rewrite coversBlock_cons in H. cbn in H. destruct H as [H|H]; [lia | exact H].
    + pose proof (chain_covers_below _ _ n Hc2' Hn) as Hbn. cbn in Hbn.
      assert (H : coversBlock ((a, b) :: r1) n).
      { apply Hcov. rewrite coversBlock_cons. right. exact Hn. }
      rewrite coversBlock_cons in H. cbn in H. destruct H as [H|H]; [lia | exact H].
Qed.

Lemma chain_separated (l : list (Z * Z)) :
  chainIntervals l -> ForallOrdPairs separatedIntervals l.
Proof.
  induction l as [|x r IH]; intros Hc; constructor.
  - pose proof (chain_tail_above x r Hc) as Ha. destruct Hc as [Hx _].
    eapply Forall_impl; [exact Ha|]. intros y Hy. cbn in Hy. unfold separatedIntervals. lia.
  - apply IH. destruct Hc as [_ [_ Hc]]. exact Hc.
Qed.

End MergeIntervalsProofs.

Section CachedIntervalTableLemmas.

Lemma getCachedIntervals_app (c : string) (l1 l2 : CachedIntervalsTable) :
  getCachedIntervals c (l1 ++ l2) = getCachedIntervals c l1 ++ getCachedIntervals c l2.
Proof.
  induction l1 as [|r l1 IH]; cbn; [reflexivity|].
  unfold getCachedIntervals in *. cbn. destruct (String.eqb _ _); cbn; rewrite IH; reflexivity.
Qed.

Lemma otherRows_app (c : string) (l1 l2 : CachedIntervalsTable) :
  snd (deleteIntervals c (l1 ++ l2)) =
  snd (deleteIntervals c l1) ++ snd (deleteIntervals c l2).
Proof.
  induction l1 as [|r l1 IH]; cbn; [reflexivity|].
  cbn in IH. destruct (String.eqb _ _); cbn; rewrite ?IH; reflexivity.
Qed.

Lemma getCachedIntervals_otherRows_same (c : string) (tbl : CachedIntervalsTable) :
  getCachedIntervals c (snd (deleteIntervals c tbl)) = [].
Proof.
  induction tbl as [|r tbl IH]; cbn; [reflexivity|].
  unfold getCachedIntervals in *. cbn in IH.
  destruct (String.eqb (ci_contractAddress r) c) eqn:E; cbn; [exact IH|].
  rewrite E. exact IH.
Qed.

Lemma getCachedIntervals_otherRows_other (c c0 : string) (tbl : CachedIntervalsTable) :
  c <> c0 -> getCachedIntervals c (snd (deleteIntervals c0 tbl)) = getCachedIntervals c tbl.
Proof.
  intros Hne. induction tbl as [|r tbl IH]; cbn; [reflexivity|].
  unfold getCachedIntervals in *. cbn in IH.
  destruct (String.eqb (ci_contractAddress r) c0) eqn:E; cbn.
  - apply String.eqb_eq in E. rewrite E.
    destruct (String.eqb_spec c0 c); [congruence|]. exact IH.
  - destruct (String.eqb _ c); rewrite IH; reflexivity.
Qed.

Lemma otherRows_idem (c : string) (tbl : CachedIntervalsTable) :
  snd (deleteIntervals c (snd (deleteIntervals c tbl))) = snd (deleteIntervals c tbl).
Proof.
  induction tbl as [|r tbl IH]; cbn; [reflexivity|].
  cbn in IH. destruct (String.eqb (ci_contractAddress r) c) eqn:E; cbn; [exact IH|].
  rewrite E. cbn. rewrite IH. reflexivity.
Qed.

Lemma getCachedIntervals_idem (c : string) (tbl : CachedIntervalsTable) :
  getCachedIntervals c (getCachedIntervals c tbl) = getCachedIntervals c tbl.
Proof.
  induction tbl as [|r tbl IH]; cbn; [reflexivity|].
  unfold getCachedIntervals in *.
  destruct (String.eqb (ci_contractAddress r) c) eqn:E; cbn; [rewrite E, IH|]; reflexivity || exact IH.
Qed.

Lemma getCachedIntervals_contract (c : string) (tbl : CachedIntervalsTable) :
  Forall (fun r => ci_contractAddress r = c) (getCachedIntervals c tbl).
Proof.
  apply List.Forall_forall. intros r Hr. unfold getCachedIntervals in Hr.
  apply List.filter_In in Hr. apply String.eqb_eq. apply Hr.
Qed.

Lemma rows_getCachedIntervals (c : string) (rows : list CachedInterval) :
  Forall (fun r => ci_contractAddress r = c) rows -> getCachedIntervals c rows = rows.
Proof.
  induction 1 as [|r rows Hr _ IH]; cbn; [reflexivity|].
  unfold getCachedIntervals in *. cbn. rewrite Hr, String.eqb_refl, IH. reflexivity.
Qed.

Lemma rows_getCachedIntervals_other (c c0 : string) (rows : list CachedInterval) :
  c <> c0 -> Forall (fun r => ci_contractAddress r = c0) rows -> getCachedIntervals c rows = [].
Proof.
  intros Hne. induction 1 as [|r rows Hr _ IH]; cbn; [reflexivity|].
  unfold getCachedIntervals in *. cbn. rewrite Hr.
  destruct (String.eqb_spec c0 c); [congruence|]. exact IH.
Qed.

Lemma rows_otherRows (c : string) (rows : list CachedInterval) :
  Forall (fun r => ci_contractAddress r = c) rows -> snd (deleteIntervals c rows) = [].
Proof.
  induction 1 as [|r rows Hr _ IH]; cbn; [reflexivity|].
  cbn in IH. rewrite Hr, String.eqb_refl. exact IH.
Qed.

Section AnyMerge.

Variable merge : list (Z * Z) -> list (Z * Z).

Lemma insertMergedIntervals_ok (c : string) (contributors : list CachedInterval)
    (merged : list (Z * Z)) (rows : list CachedInterval) :
  insertMergedIntervals c contributors merged = Ok rows ->
  map interval_of rows = merged /\
  Forall (fun r => ci_contractAddress r = c) rows /\
  Forall (fun r => exists o,
            List.find (fun o => ci_endBlock o =? ci_endBlock r) contributors = Some o /\
            ci_endBlockTimestamp r = ci_endBlockTimestamp o) rows.
Proof.
  revert rows. induction merged as [|[s e] merged IH]; intros rows Hok; cbn in Hok.
  - injection Hok as <-. repeat split; constructor.
  - destruct (List.find _ _) as [o|] eqn:Hf; [|discriminate].
    destruct (insertMergedIntervals c contributors merged) as [rows'|m] eqn:Hr; [|discriminate].
    injection Hok as <-. destruct (IH rows' eq_refl) as [Hm [Hc Hp]].
    cbn. rewrite Hm. repeat split; try reflexivity; constructor; try assumption.
    + reflexivity.
    + exists o. cbn. split; [exact Hf | reflexivity].
Qed.

Lemma insertMergedIntervals_throw (c : string) (contributors : list CachedInterval)
    (merged : list (Z * Z)) :
  (exists x, In x merged /\ forall o, In o contributors -> ci_endBlock o <> snd x) ->
  exists m, insertMergedIntervals c contributors merged = Throw m.
Proof.
  intros [x [Hx Hno]]. induction merged as [|[s e] merged IH]; [destruct Hx|]. cbn.
  destruct Hx as [Hx|Hx].
  - subst x. cbn in Hno.
    destruct (List.find _ _) as [o|] eqn:Hf; [|eauto].
    apply List.find_some in Hf. destruct Hf as [Ho He].
    apply Z.eqb_eq in He. exfalso. exact (Hno o Ho He).
  - destruct (List.find _ _) as [o|]; [|eauto].
    destruct (IH Hx) as [m Hm]. rewrite Hm. eauto.
Qed.

Lemma insertMergedIntervals_total (c : string) (contributors : list CachedInterval)
    (merged : list (Z * Z)) :
  (forall x, In x merged -> exists o, In o contributors /\ ci_endBlock o = snd x) ->
  exists rows, insertMergedIntervals c contributors merged = Ok rows.
Proof.
  induction merged as [|[s e] merged IH]; intros Hall; cbn; [eauto|].
  destruct (List.find (fun o => ci_endBlock o =? e) contributors) as [o|] eqn:Hf.
  - destruct IH as [rows Hrows]; [intros x Hx; apply Hall; right; exact Hx|].
    rewrite Hrows. eauto.
  - destruct (Hall (s, e)) as [o [Ho He]]; [left; reflexivity|].
    pose proof (List.find_none _ _ Hf o Ho) as Hno. cbn in He, Hno.
    rewrite He, Z.eqb_refl in Hno. discriminate.
Qed.

Lemma insertCachedInterval_shape (tbl tbl' : CachedIntervalsTable) (iv : CachedInterval) :
  insertCachedInterval merge tbl iv = Ok tbl' ->
  exists rows,
    tbl' = snd (deleteIntervals (ci_contractAddress iv) tbl) ++ rows /\
    ((getCachedIntervals (ci_contractAddress iv) tbl = [] /\ rows = [iv]) \/
     (getCachedIntervals (ci_contractAddress iv) tbl <> [] /\
      insertMergedIntervals (ci_contractAddress iv)
        (iv :: getCachedIntervals (ci_contractAddress iv) tbl)
        (merge (map interval_of (getCachedIntervals (ci_contractAddress iv) tbl)
                ++ [interval_of iv])) = Ok rows)).
Proof.
  unfold insertCachedInterval. cbn [deleteIntervals].
  destruct (getCachedIntervals (ci_contractAddress iv) tbl) as [|r0 existing] eqn:He.
  - intros Hok. injection Hok as <-. exists [iv]. cbn. split; [reflexivity|]. left. tauto.
  - destruct (insertMergedIntervals _ _ _) as [rows|m] eqn:Hm; [|discriminate].
    intros Hok. injection Hok as <-. exists rows. cbn. split; [reflexivity|].
    right. split; [discriminate|]. reflexivity.
Qed.

End AnyMerge.

End CachedIntervalTableLemmas.

Section SpecMergeLemmas.

Lemma chain_wf (l : list (Z * Z)) :
  chainIntervals l -> Forall (fun x => fst x <= snd x) l.
Proof.
  induction l as [|x r IH]; intros Hc; constructor; destruct Hc as [Hx [_ Hc]];
    [exact Hx | exact (IH Hc)].
Qed.

Lemma coversBlock_app (l1 l2 : list (Z * Z)) (n : Z) :
  coversBlock (l1 ++ l2) n <-> coversBlock l1 n \/ coversBlock l2 n.
Proof.
  unfold coversBlock. split.
  - intros [x [Hx Hn]]. apply in_app_or in Hx. destruct Hx; [left|right]; exists x; tauto.
  - intros [[x [Hx Hn]]|[x [Hx Hn]]]; exists x; split; try exact Hn; apply in_or_app; tauto.
Qed.

Lemma coversBlock_single (x : Z * Z) (n : Z) :
  coversBlock [x] n <-> fst x <= n <= snd x.
Proof.
  rewrite coversBlock_cons. unfold coversBlock. split; [|tauto].
  intros [H|[y [[] _]]]. exact H.
Qed.

Lemma chain_find (E : list CachedInterval) (r : CachedInterval) :
  chainIntervals (map interval_of E) -> In r E ->
  List.find (fun o => ci_endBlock o =? ci_endBlock r) E = Some r.
Proof.
  induction E as [|x E IH]; intros Hc Hin; [destruct Hin|]. cbn.
  destruct (ci_endBlock x =? ci_endBlock r) eqn:Hxr.
  - apply Z.eqb_eq in Hxr. destruct Hin as [Hin|Hin]; [congruence|exfalso].
    pose proof (chain_tail_above _ _ Hc) as Ha.
    pose proof (chain_wf _ Hc) as Hw. cbn in Hw.
    rewrite List.Forall_forall in Ha. rewrite List.Forall_forall in Hw.
    assert (Hr : In (interval_of r) (map interval_of E)) by (apply in_map; exact Hin).
    specialize (Ha _ Hr). specialize (Hw _ (or_intror Hr)).
    unfold interval_of in *. cbn in *. lia.
  - destruct Hin as [Hin|Hin]; [subst x; rewrite Z.eqb_refl in Hxr; discriminate|].
    apply IH; [destruct Hc as [_ [_ Hc]]; exact Hc | exact Hin].
Qed.

Lemma cachedInterval_eq (r r' : CachedInterval) :
  ci_contractAddress r = ci_contractAddress r' -> ci_startBlock r = ci_startBlock r' ->
  ci_endBlock r = ci_endBlock r' -> ci_endBlockTimestamp r = ci_endBlockTimestamp r' ->
  r = r'.
Proof. destruct r, r'; cbn; intros; subst; reflexivity. Qed.

(** One write with the spec's [merge_intervals] on a table satisfying the
    invariant: it succeeds, and the contract's new rows are a chain covering
    the old rows and the new interval. *)
Lemma insertCachedInterval_step (tbl : CachedIntervalsTable) (iv : CachedInterval) :
  cachedIntervalsInvariant tbl -> wellFormedInterval iv ->
  exists rows,
    insertCachedInterval merge_intervals tbl iv =
      Ok (snd (deleteIntervals (ci_contractAddress iv) tbl) ++ rows) /\
    Forall (fun r => ci_contractAddress r = ci_contractAddress iv) rows /\
    chainIntervals (map interval_of rows) /\
    (forall n, coversBlock (map interval_of rows) n <->
       coversBlock (map interval_of (getCachedIntervals (ci_contractAddress iv) tbl)) n \/
       ci_startBlock iv <= n <= ci_endBlock iv) /\
    Forall (fun r => exists o,
      List.find (fun o => ci_endBlock o =? ci_endBlock r)
        (iv :: getCachedIntervals (ci_contractAddress iv) tbl) = Some o /\
      ci_endBlockTimestamp r = ci_endBlockTimestamp o) rows.
Proof.
  intros Hinv Hwf. pose proof (Hinv (ci_contractAddress iv)) as Hc.
  unfold wellFormedInterval in Hwf.
  unfold insertCachedInterval. cbn [deleteIntervals].
  destruct (getCachedIntervals (ci_contractAddress iv) tbl) as [|r0 existing] eqn:He.
  - exists [iv]. split; [reflexivity|]. split; [repeat constructor|].
    split; [cbn; tauto|]. split.
    + intros n. cbn [map]. rewrite coversBlock_single. unfold coversBlock. cbn. split; [tauto|].
      intros [[x [[] _]]|H]. exact H.
    + constructor; [|constructor]. exists iv. cbn. rewrite Z.eqb_refl. tauto.
  - set (E := r0 :: existing) in *.
    set (merged := merge_intervals (map interval_of E ++ [interval_of iv])).
    assert (Hin : Forall (fun x => fst x <= snd x) (map interval_of E ++ [interval_of iv])).
    { apply Forall_app. split; [exact (chain_wf _ Hc)|]. constructor; [exact Hwf | constructor]. }
    destruct (insertMergedIntervals_total (ci_contractAddress iv) (iv :: E) merged)
      as [rows Hrows].
    { intros x Hx. destruct (merge_intervals_ends _ x Hx) as [y [Hy Hey]].
      apply in_app_or in Hy. destruct Hy as [Hy|[Hy|[]]].
      - apply in_map_iff in Hy. destruct Hy as [r [Hr Hr']]. subst y.
        exists r. split; [right; exact Hr' | exact Hey].
      - subst y. exists iv. split; [left; reflexivity | exact Hey]. }
    pose proof Hrows as Hrows'. unfold merged, interval_of in Hrows'. cbn [map] in Hrows'.
    cbn [map]. rewrite Hrows'.
    destruct (insertMergedIntervals_ok _ _ _ _ Hrows) as [Hm [Hca Hp]].
    exists rows. split; [reflexivity|]. split; [exact Hca|]. rewrite Hm. split.
    + apply merge_intervals_chain. exact Hin.
    + split; [|exact Hp]. intros n. unfold merged. rewrite merge_intervals_covers by exact Hin.
      rewrite coversBlock_app, coversBlock_single. reflexivity.
Qed.

Lemma invariant_step (tbl : CachedIntervalsTable) (c0 : string) (rows : list CachedInterval) :
  cachedIntervalsInvariant tbl ->
  Forall (fun r => ci_contractAddress r = c0) rows -> chainIntervals (map interval_of rows) ->
  cachedIntervalsInvariant (snd (deleteIntervals c0 tbl) ++ rows).
Proof.
  intros Hinv Hca Hc c. rewrite getCachedIntervals_app.
  destruct (String.eqb_spec c c0) as [->|Hne].
  - rewrite getCachedIntervals_otherRows_same, rows_getCachedIntervals by exact Hca. exact Hc.
  - rewrite getCachedIntervals_otherRows_other by exact Hne.
    rewrite (rows_getCachedIntervals_other c c0 rows Hne Hca). rewrite app_nil_r. apply Hinv.
Qed.

Lemma cachedIntervalsInvariant_nil : cachedIntervalsInvariant [].
Proof. intros c. exact I. Qed.

Lemma cachedIntervalsAfter_invariant (tbl : CachedIntervalsTable) (iv : CachedInterval) :
  cachedIntervalsInvariant tbl -> wellFormedInterval iv ->
  cachedIntervalsInvariant (cachedIntervalsAfter merge_intervals tbl iv).
Proof.
  intros Hinv Hwf.
  destruct (insertCachedInterval_step tbl iv Hinv Hwf) as [rows [Hok [Hca [Hc _]]]].
  unfold cachedIntervalsAfter. rewrite Hok. apply invariant_step; assumption.
Qed.

Lemma insertCachedIntervals_invariant (tbl : CachedIntervalsTable) (ivs : list CachedInterval) :
  cachedIntervalsInvariant tbl -> Forall wellFormedInterval ivs ->
  cachedIntervalsInvariant (insertCachedIntervals merge_intervals tbl ivs).
Proof.
  revert tbl. induction ivs as [|iv ivs IH]; intros tbl Hinv Hwf; cbn; [exact Hinv|].
  inversion Hwf; subst. apply IH; [|assumption].
  apply cachedIntervalsAfter_invariant; assumption.
Qed.

(** Rows that agree with the stored ones on contract, range and the
    timestamp of the contributor found for their endBlock are the stored ones. *)
Lemma rows_eq_stored (c : string) (contributors rows L : list CachedInterval) :
  map interval_of rows = map interval_of L ->
  Forall (fun r => ci_contractAddress r = c) rows ->
  Forall (fun r => ci_contractAddress r = c) L ->
  Forall (fun r => exists o,
    List.find (fun o => ci_endBlock o =? ci_endBlock r) contributors = Some o /\
    ci_endBlockTimestamp r = ci_endBlockTimestamp o) rows ->
  Forall (fun r' => forall o,
    List.find (fun o => ci_endBlock o =? ci_endBlock r') contributors = Some o ->
    ci_endBlockTimestamp o = ci_endBlockTimestamp r') L ->
  rows = L.
Proof.
  revert L. induction rows as [|r rows IH]; intros L Hm Hc HcL Hp HpL.
  - destruct L; [reflexivity | discriminate].
  - destruct L as [|r' L]; [discriminate|].
    cbn in Hm. unfold interval_of in Hm. injection Hm as Hs He Hm.
    inversion Hc; inversion HcL; inversion Hp as [|? ? [o [Hf Hts]] Hp1]; inversion HpL as [|? ? Hts' HpL1]; subst.
    f_equal; [|apply IH; assumption].
    apply cachedInterval_eq; try assumption; [congruence|].
    rewrite He in Hf. rewrite Hts. apply Hts'. exact Hf.
Qed.

(** A write whose range is already covered, with the matching timestamp,
    leaves the table as [rest ++ existing]. *)
Lemma insertCachedInterval_covered (tbl : CachedIntervalsTable) (iv : CachedInterval) :
  cachedIntervalsInvariant tbl -> wellFormedInterval iv ->
  (forall n, ci_startBlock iv <= n <= ci_endBlock iv ->
     coversBlock (map interval_of (getCachedIntervals (ci_contractAddress iv) tbl)) n) ->
  (forall r, In r (getCachedIntervals (ci_contractAddress iv) tbl) ->
     ci_endBlock r = ci_endBlock iv -> ci_endBlockTimestamp r = ci_endBlockTimestamp iv) ->
  insertCachedInterval merge_intervals tbl iv =
    Ok (snd (deleteIntervals (ci_contractAddress iv) tbl) ++
        getCachedIntervals (ci_contractAddress iv) tbl).
Proof.
  intros Hinv Hwf Hcov Hts.
  destruct (insertCachedInterval_step tbl iv Hinv Hwf) as [rows [Hok [Hca [Hc [Hcv Hp]]]]].
  rewrite Hok. do 2 f_equal.
  set (E := getCachedIntervals (ci_contractAddress iv) tbl) in *.
  assert (HcE : chainIntervals (map interval_of E)) by apply Hinv.
  assert (Hm : map interval_of rows = map interval_of E).
  { apply chain_unique; [exact Hc | exact HcE|]. intros n. rewrite Hcv.
    split; [intros [H|H]; [exact H | exact (Hcov n H)] | tauto]. }
  apply (rows_eq_stored (ci_contractAddress iv) (iv :: E)); try assumption.
  - apply getCachedIntervals_contract.
  - apply List.Forall_forall. intros r' Hr' o Hf. cbn in Hf.
    destruct (ci_endBlock iv =? ci_endBlock r') eqn:Hiv.
    + injection Hf as <-. symmetry. apply Hts; [exact Hr'|]. apply Z.eqb_eq in Hiv. congruence.
    + rewrite (chain_find E r' HcE Hr') in Hf. injection Hf as <-. reflexivity.
Qed.

End SpecMergeLemmas.

(** C3: starting from an empty cachedIntervals table, after any sequence of
    [insertCachedInterval] calls with well-formed ranges, the intervals
    stored for every contract are pairwise neither overlapping nor adjacent.
    A further write succeeds. Its rows for the contract are again pairwise
    separated and cover exactly the old rows together with the new range;
    overlapping or adjacent [a,b] and [c,d] therefore end up inside one row.
    Each row's endBlockTimestamp is that of a contributing interval with the
    same endBlock. *)
Theorem insertCachedIntervals_pairwise_separated
    (intervals : list CachedInterval) (iv : CachedInterval) :
  Forall wellFormedInterval intervals -> wellFormedInterval iv ->
  (forall c, ForallOrdPairs separatedIntervals
     (map interval_of
        (getCachedIntervals c (insertCachedIntervals merge_intervals [] intervals)))) /\
  exists tbl',
    insertCachedInterval merge_intervals
      (insertCachedIntervals merge_intervals [] intervals) iv = Ok tbl' /\
    ForallOrdPairs separatedIntervals
      (map interval_of (getCachedIntervals (ci_contractAddress iv) tbl')) /\
    (forall n,
       coversBlock (map interval_of (getCachedIntervals (ci_contractAddress iv) tbl')) n <->
       coversBlock (map interval_of (getCachedIntervals (ci_contractAddress iv)
                      (insertCachedIntervals merge_intervals [] intervals))) n \/
       ci_startBlock iv <= n <= ci_endBlock iv) /\
    Forall (fun r => exists o,
      In o (iv :: getCachedIntervals (ci_contractAddress iv)
                    (insertCachedIntervals merge_intervals [] intervals)) /\
      ci_endBlock o = ci_endBlock r /\
      ci_endBlockTimestamp o = ci_endBlockTimestamp r)
      (getCachedIntervals (ci_contractAddress iv) tbl').
Proof.
  intros Hwfs Hwf.
  pose proof (insertCachedIntervals_invariant [] intervals cachedIntervalsInvariant_nil Hwfs)
    as Hinv.
  split; [intros c; apply chain_separated, Hinv|].
  set (tbl := insertCachedIntervals merge_intervals [] intervals) in *.
  destruct (insertCachedInterval_step tbl iv Hinv Hwf) as [rows [Hok [Hca [Hc [Hcv Hp]]]]].
  exists (snd (deleteIntervals (ci_contractAddress iv) tbl) ++ rows).
  assert (Hg : getCachedIntervals (ci_contractAddress iv)
                 (snd (deleteIntervals (ci_contractAddress iv) tbl) ++ rows) = rows).
  { rewrite getCachedIntervals_app, getCachedIntervals_otherRows_same.
    apply rows_getCachedIntervals. exact Hca. }
  rewrite Hg. split; [exact Hok|]. split; [apply chain_separated; exact Hc|].
  split; [exact Hcv|].
  eapply Forall_impl; [exact Hp|]. intros r [o [Hf Hts]].
  apply List.find_some in Hf. destruct Hf as [Ho He]. apply Z.eqb_eq in He.
  exists o. split; [exact Ho|]. split; [exact He | symmetry; exact Hts].
Qed.

Lemma insertCachedIntervals_pairwise_separated_witness :
  Forall wellFormedInterval sample_intervals /\ wellFormedInterval (sample_interval 20 35) /\
  insertCachedInterval merge_intervals
    (insertCachedIntervals merge_intervals [] sample_intervals) (sample_interval 20 35) =
    Ok [{| ci_contractAddress := "0xc"; ci_startBlock := 10; ci_endBlock := 40;
           ci_endBlockTimestamp := 40 |}].
Proof.
  assert (Hw : Forall wellFormedInterval sample_intervals).
  { unfold sample_intervals, wellFormedInterval. repeat constructor; cbn; lia. }
  assert (Hw' : wellFormedInterval (sample_interval 20 35)).
  { unfold wellFormedInterval. cbn. lia. }
  split; [exact Hw|]. split; [exact Hw'|].
  destruct (insertCachedIntervals_pairwise_separated sample_intervals (sample_interval 20 35) Hw Hw')
    as [_ [tbl' [Hok _]]].
  vm_compute. reflexivity.
Defined.

(** C4: on a table satisfying the invariant (each contract's rows form a
    separated chain, which every reachable table does), a write whose range
    is already covered by the contract's stored intervals, where a stored
    interval with the same endBlock carries the same endBlockTimestamp,
    succeeds and leaves every contract's stored intervals unchanged. Writing
    the same well-formed range twice leaves the same table as writing it
    once. *)
Theorem insertCachedInterval_idempotent (tbl : CachedIntervalsTable) (iv : CachedInterval) :
  cachedIntervalsInvariant tbl -> wellFormedInterval iv ->
  ((forall n, ci_startBlock iv <= n <= ci_endBlock iv ->
      coversBlock (map interval_of (getCachedIntervals (ci_contractAddress iv) tbl)) n) ->
   (forall r, In r (getCachedIntervals (ci_contractAddress iv) tbl) ->
      ci_endBlock r = ci_endBlock iv -> ci_endBlockTimestamp r = ci_endBlockTimestamp iv) ->
   exists tbl', insertCachedInterval merge_intervals tbl iv = Ok tbl' /\
     forall c, getCachedIntervals c tbl' = getCachedIntervals c tbl) /\
  cachedIntervalsAfter merge_intervals (cachedIntervalsAfter merge_intervals tbl iv) iv =
  cachedIntervalsAfter merge_intervals tbl iv.
Proof.
  intros Hinv Hwf. split.
  - intros Hcov Hts. eexists. split; [exact (insertCachedInterval_covered tbl iv Hinv Hwf Hcov Hts)|].
    intros c. rewrite getCachedIntervals_app.
    destruct (String.eqb_spec c (ci_contractAddress iv)) as [->|Hne].
    + rewrite getCachedIntervals_otherRows_same, getCachedIntervals_idem. reflexivity.
    + rewrite getCachedIntervals_otherRows_other by exact Hne.
      rewrite (rows_getCachedIntervals_other c (ci_contractAddress iv)
                 (getCachedIntervals (ci_contractAddress iv) tbl) Hne
                 (getCachedIntervals_contract _ _)).
      apply app_nil_r.
  - destruct (insertCachedInterval_step tbl iv Hinv Hwf) as [rows [Hok [Hca [Hc [Hcv Hp]]]]].
    unfold cachedIntervalsAfter at 2 3. rewrite Hok.
    set (tbl1 := snd (deleteIntervals (ci_contractAddress iv) tbl) ++ rows).
    assert (Hg : getCachedIntervals (ci_contractAddress iv) tbl1 = rows).
    { unfold tbl1. rewrite getCachedIntervals_app, getCachedIntervals_otherRows_same.
      apply rows_getCachedIntervals. exact Hca. }
    assert (Hinv1 : cachedIntervalsInvariant tbl1) by (apply invariant_step; assumption).
    unfold cachedIntervalsAfter. rewrite insertCachedInterval_covered; [| exact Hinv1 | exact Hwf | |].
    + rewrite Hg. unfold tbl1. rewrite otherRows_app, otherRows_idem, (rows_otherRows _ rows Hca).
      rewrite app_nil_r. reflexivity.
    + intros n Hn. rewrite Hg, Hcv. right. exact Hn.
    + rewrite Hg. intros r Hr Her. rewrite List.Forall_forall in Hp.
      destruct (Hp r Hr) as [o [Hf Hts]]. cbn in Hf.
      rewrite Her, Z.eqb_refl in Hf. injection Hf as <-. exact Hts.
Qed.

Lemma insertCachedInterval_idempotent_witness :
  cachedIntervalsInvariant (insertCachedIntervals merge_intervals [] sample_intervals) /\
  wellFormedInterval (sample_interval 20 35) /\
  cachedIntervalsAfter merge_intervals
    (cachedIntervalsAfter merge_intervals
       (insertCachedIntervals merge_intervals [] sample_intervals) (sample_interval 20 35))
    (sample_interval 20 35) =
  cachedIntervalsAfter merge_intervals
    (insertCachedIntervals merge_intervals [] sample_intervals) (sample_interval 20 35).
Proof.
  assert (Hinv : cachedIntervalsInvariant
                   (insertCachedIntervals merge_intervals [] sample_intervals)).
  { apply insertCachedIntervals_invariant; [exact cachedIntervalsInvariant_nil|].
    unfold sample_intervals, wellFormedInterval. repeat constructor; cbn; lia. }
  assert (Hw : wellFormedInterval (sample_interval 20 35)) by (unfold wellFormedInterval; cbn; lia).
  split; [exact Hinv|]. split; [exact Hw|].
  exact (proj2 (insertCachedInterval_idempotent _ _ Hinv Hw)).
Defined.

(** C5: for any merge function, when the contract already has stored
    intervals (so the write merges), every inserted row takes its
    endBlockTimestamp from one contributor: the first of
    [newInterval :: existingIntervals] whose endBlock equals the row's
    endBlock. If some merged interval has no contributor with its endBlock,
    [insertCachedInterval] throws and the transaction leaves the table
    unchanged. *)
Theorem insertCachedInterval_timestamp_source
    (merge : list (Z * Z) -> list (Z * Z)) (tbl : CachedIntervalsTable) (iv : CachedInterval) :
  getCachedIntervals (ci_contractAddress iv) tbl <> [] ->
  (forall tbl', insertCachedInterval merge tbl iv = Ok tbl' ->
     map interval_of (getCachedIntervals (ci_contractAddress iv) tbl') =
       merge (map interval_of (getCachedIntervals (ci_contractAddress iv) tbl)
              ++ [interval_of iv]) /\
     Forall (fun r => exists o,
       List.find (fun o => ci_endBlock o =? ci_endBlock r)
         (iv :: getCachedIntervals (ci_contractAddress iv) tbl) = Some o /\
       In o (iv :: getCachedIntervals (ci_contractAddress iv) tbl) /\
       ci_endBlock o = ci_endBlock r /\
       ci_endBlockTimestamp r = ci_endBlockTimestamp o)
       (getCachedIntervals (ci_contractAddress iv) tbl')) /\
  ((exists x, In x (merge (map interval_of (getCachedIntervals (ci_contractAddress iv) tbl)
                           ++ [interval_of iv])) /\
     forall o, In o (iv :: getCachedIntervals (ci_contractAddress iv) tbl) ->
       ci_endBlock o <> snd x) ->
   (exists m, insertCachedInterval merge tbl iv = Throw m) /\
   cachedIntervalsAfter merge tbl iv = tbl).
Proof.
  intros Hne. split.
  - intros tbl' Hok.
    destruct (insertCachedInterval_shape merge tbl tbl' iv Hok) as [rows [-> [[He _]|[_ Hm]]]];
      [contradiction|].
    destruct (insertMergedIntervals_ok _ _ _ _ Hm) as [Hmap [Hca Hp]].
    rewrite getCachedIntervals_app, getCachedIntervals_otherRows_same.
    rewrite rows_getCachedIntervals by exact Hca. cbn [app].
    split; [exact Hmap|].
    eapply Forall_impl; [exact Hp|]. intros r [o [Hf Hts]].
    exists o. split; [exact Hf|]. apply List.find_some in Hf. destruct Hf as [Ho He].
    apply Z.eqb_eq in He. tauto.
  - intros Hno.
    destruct (insertMergedIntervals_throw (ci_contractAddress iv)
                (iv :: getCachedIntervals (ci_contractAddress iv) tbl) _ Hno) as [m Hm].
    assert (Ht : insertCachedInterval merge tbl iv = Throw m).
    { unfold insertCachedInterval. cbn [deleteIntervals].
      destruct (getCachedIntervals (ci_contractAddress iv) tbl) as [|r0 existing] eqn:He;
        [contradiction|].
      unfold interval_of in Hm. rewrite Hm. reflexivity. }
    split; [exists m; exact Ht|]. unfold cachedIntervalsAfter. rewrite Ht. reflexivity.
Qed.

Lemma insertCachedInterval_timestamp_source_witness :
  getCachedIntervals "0xc" (insertCachedIntervals merge_intervals [] sample_intervals) <> [] /\
  insertCachedInterval (fun _ => [(10, 45)])
    (insertCachedIntervals merge_intervals [] sample_intervals) (sample_interval 20 35) =
    Throw "Old interval with endBlock not found".
Proof.
  assert (Hne : getCachedIntervals (ci_contractAddress (sample_interval 20 35))
                  (insertCachedIntervals merge_intervals [] sample_intervals) <> []).
  { vm_compute. discriminate. }
  split; [exact Hne|].
  destruct (insertCachedInterval_timestamp_source (fun _ => [(10, 45)]) _ _ Hne) as [_ Hthrow].
  destruct Hthrow as [[m Hm] _].
  - exists (10, 45). split; [left; reflexivity|].
    intros o Ho. vm_compute in Ho.
    destruct Ho as [<-|[<-|[<-|[]]]]; cbn; lia.
  - vm_compute. reflexivity.
Defined.

Section CacheStoreLemmas.

Lemma insertLogs_blocksTable (logs : list CacheLog) (s : CacheStore) :
  blocksTable (insertLogs logs s) = blocksTable s.
Proof.
  unfold insertLogs. revert s. induction logs as [|lg logs IH]; intros s; cbn; [reflexivity|].
  rewrite IH. unfold insertLogRow. destruct (_ !! _); reflexivity.
Qed.

Lemma insertTransactions_tables (ts : list CacheTransaction) (s : CacheStore) :
  blocksTable (insertTransactions ts s) = blocksTable s /\
  logsTable (insertTransactions ts s) = logsTable s.
Proof.
  unfold insertTransactions. revert s. induction ts as [|t ts IH]; intros s; cbn; [tauto|].
  destruct (IH (insertTransactionRow s t)) as [-> ->].
  unfold insertTransactionRow. destruct (_ !! _); split; reflexivity.
Qed.

Lemma insertLogs_source (logs : list CacheLog) (s : CacheStore) (logId : string) (l : CacheLog) :
  logsTable (insertLogs logs s) !! logId = Some l ->
  logsTable s !! logId = Some l \/ exists lg, In lg logs /\ l = logRow lg.
Proof.
  unfold insertLogs. revert s. induction logs as [|lg logs IH]; intros s Hl; cbn in Hl; [tauto|].
  destruct (IH _ Hl) as [Hs|[lg' [Hin ->]]]; [|right; exists lg'; split; [right; exact Hin | reflexivity]].
  unfold insertLogRow in Hs. destruct (logsTable s !! cl_logId lg) eqn:He; [left; exact Hs|].
  cbn in Hs. destruct (decide (cl_logId lg = logId)) as [<-|Hne].
  - rewrite lookup_insert_eq in Hs. injection Hs as <-. right. exists lg. split; [left|]; reflexivity.
  - rewrite lookup_insert_ne in Hs by exact Hne. left. exact Hs.
Qed.

Lemma insertBlockRow_blocksTable (block : CacheBlock) (s : CacheStore) (h : string) :
  (exists b, blocksTable (insertBlockRow block s) !! cb_hash block = Some b) /\
  (forall b, blocksTable s !! h = Some b ->
     exists b', blocksTable (insertBlockRow block s) !! h = Some b').
Proof.
  unfold insertBlockRow. destruct (blocksTable s !! cb_hash block) as [b0|] eqn:He.
  - split; [exists b0; exact He | intros b Hb; exists b; exact Hb].
  - cbn. split; [exists block; apply lookup_insert_eq|].
    intros b Hb. destruct (decide (cb_hash block = h)) as [<-|Hne]; [congruence|].
    exists b. rewrite lookup_insert_ne by exact Hne. exact Hb.
Qed.

Lemma insertBlockRow_logsTable (block : CacheBlock) (s : CacheStore) :
  logsTable (insertBlockRow block s) = logsTable s.
Proof. unfold insertBlockRow. destruct (_ !! _); reflexivity. Qed.

Lemma backfillBlockTimestamp_lookup (block : CacheBlock) (s : CacheStore) (logId : string)
    (l : CacheLog) :
  logsTable (backfillBlockTimestamp block s) !! logId = Some l ->
  exists l0, logsTable s !! logId = Some l0 /\ cl_blockHash l = cl_blockHash l0 /\
    (cl_blockHash l0 = cb_hash block -> cl_blockTimestamp l = Some (cb_timestamp block)).
Proof.
  unfold backfillBlockTimestamp. cbn. rewrite lookup_fmap.
  destruct (logsTable s !! logId) as [l0|]; cbn; [|discriminate].
  intros Hl. injection Hl as <-. exists l0. split; [reflexivity|].
  destruct (String.eqb_spec (cl_blockHash l0) (cb_hash block)) as [He|Hne]; cbn;
    split; try reflexivity; intros He'; congruence.
Qed.

Lemma upsertContractCall_lookup (cc : ContractCall) (s : CacheStore) (k : string) :
  contractCallsTable (upsertContractCall cc s) !! k =
  if decide (cc_key cc = k) then
    Some (match contractCallsTable s !! cc_key cc with
          | Some row => {| cc_key := cc_key row; cc_result := cc_result cc |}
          | None => cc
          end)
  else contractCallsTable s !! k.
Proof.
  unfold upsertContractCall.
  destruct (contractCallsTable s !! cc_key cc) as [row|] eqn:He; cbn;
    (destruct (decide (cc_key cc = k)) as [<-|Hne];
     [apply lookup_insert_eq | apply lookup_insert_ne; exact Hne]).
Qed.

Lemma upsertContractCalls_keyed (calls : list ContractCall) (s : CacheStore) :
  (forall k row, contractCallsTable s !! k = Some row -> cc_key row = k) ->
  forall k row, contractCallsTable (upsertContractCalls calls s) !! k = Some row -> cc_key row = k.
Proof.
  unfold upsertContractCalls. revert s.
  induction calls as [|cc calls IH]; intros s Hs; cbn; [exact Hs|].
  apply IH. intros k row Hk. rewrite upsertContractCall_lookup in Hk.
  destruct (decide (cc_key cc = k)) as [<-|Hne]; [|exact (Hs k row Hk)].
  injection Hk as <-. destruct (contractCallsTable s !! cc_key cc) as [row0|] eqn:He; cbn;
    [exact (Hs _ _ He) | reflexivity].
Qed.

Lemma upsertContractCalls_other (calls : list ContractCall) (s : CacheStore) (k : string) :
  Forall (fun cc => cc_key cc <> k) calls ->
  contractCallsTable (upsertContractCalls calls s) !! k = contractCallsTable s !! k.
Proof.
  unfold upsertContractCalls. revert s.
  induction calls as [|cc calls IH]; intros s Hall; cbn; [reflexivity|].
  inversion Hall as [|? ? Hne Hall']; subst.
  rewrite IH by exact Hall'. rewrite upsertContractCall_lookup.
  destruct (decide (cc_key cc = k)); [contradiction | reflexivity].
Qed.

End CacheStoreLemmas.

(** C9: after [insertBlock] following any [insertLogs] calls, every stored
    log whose blockHash is the block's hash carries the block's timestamp.
    Along the realtime insert path ([insertRealtimeBlock], whose logs are
    those of the block), the property that every stored log's block is
    stored is preserved. *)
Theorem insertBlock_log_block_consistency :
  (forall (logs : list CacheLog) (block : CacheBlock) (s : CacheStore) logId l,
     logsTable (insertBlock block (insertLogs logs s)) !! logId = Some l ->
     cl_blockHash l = cb_hash block -> cl_blockTimestamp l = Some (cb_timestamp block)) /\
  (forall (block : CacheBlock) (transactions : list CacheTransaction) (logs : list CacheLog)
          (s : CacheStore),
     logsHaveBlocks s -> Forall (fun l => cl_blockHash l = cb_hash block) logs ->
     logsHaveBlocks (insertRealtimeBlockRows block transactions logs s)).
Proof.
  split.
  - intros logs block s logId l Hl Hh. unfold insertBlock in Hl.
    destruct (backfillBlockTimestamp_lookup _ _ _ _ Hl) as [l0 [_ [Hh0 Hts]]].
    apply Hts. congruence.
  - intros block transactions logs s Hinv Hlogs logId l Hl.
    unfold insertRealtimeBlockRows in *.
    destruct (backfillBlockTimestamp_lookup _ _ _ _ Hl) as [l0 [Hl0 [Hh0 _]]].
    rewrite Hh0. cbn [backfillBlockTimestamp blocksTable set_logsTable].
    unfold backfillBlockTimestamp. cbn [blocksTable].
    rewrite insertLogs_blocksTable, (proj1 (insertTransactions_tables _ _)).
    destruct (insertLogs_source _ _ _ _ Hl0) as [Hs|[lg [Hin ->]]].
    + rewrite (proj2 (insertTransactions_tables _ _)), insertBlockRow_logsTable in Hs.
      destruct (Hinv _ _ Hs) as [b Hb].
      exact (proj2 (insertBlockRow_blocksTable block s _) b Hb).
    + rewrite List.Forall_forall in Hlogs. cbn. rewrite (Hlogs lg Hin).
      exact (proj1 (insertBlockRow_blocksTable block s "")).
Qed.

Lemma insertBlock_log_block_consistency_witness :
  logsTable (insertBlock sample_cache_block
               (insertLogs [sample_cache_log "l1" "0xb1"] emptyCacheStore)) !! "l1" =
    Some {| cl_logId := "l1"; cl_address := "0xc"; cl_blockHash := "0xb1";
            cl_blockNumber := 101; cl_blockTimestamp := Some 1101; cl_transactionHash := "0xt" |} /\
  cl_blockTimestamp (sample_cache_log "l1" "0xb1") = None /\
  logsHaveBlocks (insertRealtimeBlockRows sample_cache_block []
                    [sample_cache_log "l1" "0xb1"] emptyCacheStore).
Proof.
  split; [vm_compute; reflexivity|]. split; [reflexivity|].
  apply (proj2 insertBlock_log_block_consistency).
  - intros logId l Hl. cbn in Hl. rewrite lookup_empty in Hl. discriminate.
  - repeat constructor.
Defined.

(** C10: after any history of upserts, [getContractCall k] following
    [upsertContractCall {key: k, result: r}] returns [{key: k, result: r}]
    (last write wins); from the empty store, [getContractCall k] returns
    [null] after any upserts none of which has key [k]. *)
Theorem upsertContractCall_getContractCall :
  (forall (calls : list ContractCall) (k r : string),
     getContractCall k
       (upsertContractCall {| cc_key := k; cc_result := r |}
          (upsertContractCalls calls emptyCacheStore)) =
     Some {| cc_key := k; cc_result := r |}) /\
  (forall (calls : list ContractCall) (k : string),
     Forall (fun cc => cc_key cc <> k) calls ->
     getContractCall k (upsertContractCalls calls emptyCacheStore) = None).
Proof.
  split.
  - intros calls k r. unfold getContractCall. rewrite upsertContractCall_lookup. cbn [cc_key].
    destruct (decide (k = k)) as [_|]; [|contradiction]. f_equal.
    destruct (contractCallsTable (upsertContractCalls calls emptyCacheStore) !! k)
      as [row|] eqn:He; [|reflexivity].
    rewrite (upsertContractCalls_keyed calls emptyCacheStore
               ltac:(intros k' row' H; cbn in H; rewrite lookup_empty in H; discriminate)
               k row He).
    reflexivity.
  - intros calls k Hall. unfold getContractCall. rewrite upsertContractCalls_other by exact Hall.
    apply lookup_empty.
Qed.

Lemma upsertContractCall_getContractCall_witness :
  getContractCall "k"
    (upsertContractCall {| cc_key := "k"; cc_result := "0x02" |}
       (upsertContractCalls [{| cc_key := "k"; cc_result := "0x01" |}] emptyCacheStore)) =
    Some {| cc_key := "k"; cc_result := "0x02" |} /\
  getContractCall "k"
    (upsertContractCalls [{| cc_key := "j"; cc_result := "0x01" |}] emptyCacheStore) = None.
Proof.
  split; [apply (proj1 upsertContractCall_getContractCall)|].
  apply (proj2 upsertContractCall_getContractCall). constructor; [discriminate | constructor].
Defined.

(* ================================================================== *)
(** ** Realtime sync: further properties *)

Section RealtimeSyncCases.

Variable isMatchedLogInBloomFilter : string -> list LogFilterCriteria -> bool.
Variable filterLogs : list Log -> list LogFilterCriteria -> list Log.
Variable network : Network.
Variable logFilters : list LogFilter.

Local Abbreviation worker :=
  (blockTaskWorker isMatchedLogInBloomFilter filterLogs network logFilters).
Local Abbreviation fbc := (net_finalityBlockCount network).
Local Abbreviation filters := (map lf_filter logFilters).
Local Abbreviation effectOk :=
  (workerEffectOk isMatchedLogInBloomFilter filterLogs network logFilters).

Lemma processNewHeadLogs_effects (B : BlockWithTransactions) (st : ServiceState) :
  exists n pre,
    processNewHeadLogs isMatchedLogInBloomFilter filterLogs network logFilters B st
      = (Ok n, with_trace (trace st ++ pre) st) /\
    Forall (effectOk st B) pre /\
    (isMatchedLogInBloomFilter (bw_logsBloom B) filters = false -> pre = []).
Proof.
  unfold processNewHeadLogs, client.
  destruct (isMatchedLogInBloomFilter (bw_logsBloom B) filters) eqn:Hbloom.
  - destruct (filterLogs (eth_getLogs (net_client network) (bw_hash B)) filters)
      as [|l ls] eqn:Hfl.
    + exists 0%nat, []. cbn. rewrite app_nil_r. split; [destruct st; reflexivity|].
      split; [constructor | discriminate].
    + exists (length (l :: ls)), [insertRealtimeBlock (net_chainId network) B
        (List.filter (fun t => existsb (String.eqb (tx_hash t))
                                 (map log_transactionHash (l :: ls))) (bw_transactions B))
        (l :: ls)].
      split; [reflexivity|]. split; [|discriminate].
      constructor; [|constructor]. unfold workerEffectOk.
      split; [reflexivity|]. split; [reflexivity|]. split; [exact Hbloom|].
      split; [symmetry; exact Hfl|]. split; [discriminate|].
      intros t. rewrite List.filter_In. cbv beta. rewrite existsb_exists. split.
      * intros [Ht [h [Hh Heq]]]. apply String.eqb_eq in Heq. subst h.
        apply in_map_iff in Hh. destruct Hh as [l' [Hl' Hin]].
        split; [exact Ht|]. exists l'. split; [exact Hin | exact Hl'].
      * intros [Ht [l' [Hin Hl']]]. split; [exact Ht|].
        exists (tx_hash t). split; [|apply String.eqb_refl].
        apply in_map_iff. exists l'. split; [exact Hl' | exact Hin].
  - exists 0%nat, []. rewrite app_nil_r. split; [destruct st; reflexivity|].
    split; [constructor | reflexivity].
Qed.

Lemma advanceFinality_cases (nb : LightBlock) (st st' : ServiceState) (r : Outcome unit) :
  advanceFinality network logFilters nb st = (r, st') ->
  st' = st \/
  (finalizedBlockNumber st + 2 * fbc < lb_number nb /\
   exists F, In F (blocks st) /\ lb_number F = finalizedBlockNumber st + fbc /\
   st' = {| blocks := List.filter (fun b => lb_number F <=? lb_number b) (blocks st);
            finalizedBlockNumber := lb_number F;
            queue := queue st; queueStarted := queueStarted st; polling := polling st;
            trace := trace st ++
              [insertLogFilterCachedRanges (map (fun l => lfc_key (lf_filter l)) logFilters)
                 (finalizedBlockNumber st + 1) (lb_number F) (lb_timestamp F);
               emit (finalityCheckpoint (lb_timestamp F))] |}).
Proof.
  unfold advanceFinality, svc_bind, svc_get, finalityBlockCount.
  destruct (finalizedBlockNumber st + 2 * fbc <? lb_number nb) eqn:Hadv.
  - destruct (List.find _ (blocks st)) as [F|] eqn:HF.
    + apply List.find_some in HF as [HFin HFn]. apply Z.eqb_eq in HFn.
      apply Z.ltb_lt in Hadv.
      unfold perform, svc_modify, add_effect, set_blocks, set_finalizedBlockNumber. cbn.
      intros H. injection H as _ <-. right. split; [exact Hadv|].
      exists F. split; [exact HFin|]. split; [exact HFn|]. rewrite <- app_assoc. reflexivity.
    + intros H. injection H as _ <-. left. reflexivity.
  - intros H. injection H as _ <-. left. reflexivity.
Qed.

Lemma fetchMissingBlocks_state (ns : list Z) (st : ServiceState) :
  snd (fetchMissingBlocks network ns st) = st.
Proof.
  revert st. induction ns as [|n ns IH]; intros st; cbn; [reflexivity|].
  unfold client. destruct (eth_getBlockByNumber (net_client network) n); [|reflexivity].
  unfold svc_bind. specialize (IH st).
  destruct (fetchMissingBlocks network ns st) as [[bs|m] st1]; cbn in IH |- *; exact IH.
Qed.

Lemma handleGap_cases (prev : LightBlock) (B : BlockWithTransactions)
    (st st' : ServiceState) (r : Outcome unit) :
  handleGap network prev B st = (r, st') -> exists q, st' = set_queue q st.
Proof.
  unfold handleGap, svc_bind.
  pose proof (fetchMissingBlocks_state (range (lb_number prev + 1) (bw_number B)) st) as Hs.
  destruct (fetchMissingBlocks network _ st) as [[bs|m] st1]; cbn in Hs; subst st1.
  - rewrite forM_addTask. intros H. injection H as _ <-. eauto.
  - intros H. injection H as _ <-. exists (queue st). destruct st; reflexivity.
Qed.

Lemma handleReorg_cases (fuel : nat) (B : BlockWithTransactions)
    (st st' : ServiceState) (r : Outcome unit) :
  handleReorg network fuel B st = (r, st') ->
  (exists e, st' = with_trace (trace st ++ e) st /\ Forall isEmit e) \/
  exists A q e, In A (blocks st) /\ Forall isEmit e /\
    st' = {| blocks := List.filter (fun b => lb_number b <=? lb_number A) (blocks st);
             finalizedBlockNumber := finalizedBlockNumber st;
             queue := q; queueStarted := queueStarted st; polling := polling st;
             trace := trace st ++ deleteRealtimeData (net_chainId network) (lb_number A + 1)
                      :: e |}.
Proof.
  unfold handleReorg, svc_bind at 1, svc_get.
  destruct (traverseCanonical network (blocks st) (finalizedBlockNumber st) fuel [B]
              (rpcBlockToLightBlock B) 0) as [A c d|c d|h|] eqn:Htr.
  - destruct (traverseCanonical_found _ _ _ _ _ _ _ _ _ _ Htr) as [HA _].
    unfold svc_bind, svc_modify, perform, clearQueue, add_effect, set_blocks, set_queue.
    cbn -[svc_forM addNewLatestBlock].
    rewrite forM_addTask.
    unfold addNewLatestBlock, getLatestBlock, client, svc_bind.
    destruct (eth_getBlockByNumber_latest (net_client network)) as [L|].
    + unfold svc_ret, addTask, svc_modify, set_queue. cbn.
      intros H. injection H as _ <-. right. eexists; eexists; exists [emit (shallowReorg (lb_timestamp A))].
      split; [exact HA|]. split; [constructor; [eexists; reflexivity | constructor]|].
      rewrite <- app_assoc. reflexivity.
    + unfold svc_throw. cbn. intros H. injection H as _ <-.
      right. eexists; eexists; exists []. split; [exact HA|]. split; [constructor|].
      reflexivity.
  - unfold perform, svc_modify, add_effect. intros H. injection H as _ <-.
    left. exists [emit (deepReorg (lb_number (rpcBlockToLightBlock B)) (Z.of_nat d))].
    split; [reflexivity | constructor; [eexists; reflexivity | constructor]].
  - intros H. injection H as _ <-. left. exists []. rewrite app_nil_r.
    split; [destruct st; reflexivity | constructor].
  - intros H. injection H as _ <-. left. exists []. rewrite app_nil_r.
    split; [destruct st; reflexivity | constructor].
Qed.

(** Everything a block task can do to the state. *)
Lemma blockTaskWorker_cases (fuel : nat) (B : BlockWithTransactions)
    (st st' : ServiceState) (r : Outcome unit) :
  worker fuel B st = (r, st') ->
  (exists q e, Forall isEmit e /\
     st' = {| blocks := blocks st; finalizedBlockNumber := finalizedBlockNumber st;
              queue := q; queueStarted := queueStarted st; polling := polling st;
              trace := trace st ++ e |}) \/
  (exists prev pre,
     last (blocks st) = Some prev /\ bw_number B = lb_number prev + 1 /\
     bw_parentHash B = lb_hash prev /\ Forall (effectOk st B) pre /\
     advanceFinality network logFilters (rpcBlockToLightBlock B)
       {| blocks := blocks st ++ [rpcBlockToLightBlock B];
          finalizedBlockNumber := finalizedBlockNumber st;
          queue := queue st; queueStarted := queueStarted st; polling := polling st;
          trace := trace st ++ pre ++ [emit (realtimeCheckpoint (bw_timestamp B))] |}
       = (r, st')) \/
  (exists A q e, In A (blocks st) /\ Forall isEmit e /\
     st' = {| blocks := List.filter (fun b => lb_number b <=? lb_number A) (blocks st);
              finalizedBlockNumber := finalizedBlockNumber st;
              queue := q; queueStarted := queueStarted st; polling := polling st;
              trace := trace st ++ deleteRealtimeData (net_chainId network) (lb_number A + 1)
                       :: e |}).
Proof.
  assert (Hsame : forall st0, st0 = {| blocks := blocks st0;
            finalizedBlockNumber := finalizedBlockNumber st0; queue := queue st0;
            queueStarted := queueStarted st0; polling := polling st0;
            trace := trace st0 ++ [] |}).
  { intros []. cbn. rewrite app_nil_r. reflexivity. }
  unfold blockTaskWorker, svc_bind at 1, svc_get.
  destruct (existsb _ (blocks st)).
  { intros H. injection H as _ <-. left. exists (queue st), []. split; [constructor | apply Hsame]. }
  destruct (last (blocks st)) as [prev|] eqn:Hlast.
  2:{ intros H. injection H as _ <-. left. exists (queue st), []. split; [constructor | apply Hsame]. }
  cbn [rpcBlockToLightBlock lb_number lb_parentHash lb_hash].
  destruct ((bw_number B =? lb_number prev + 1) && String.eqb (bw_parentHash B) (lb_hash prev))%bool
    eqn:Hnew.
  - apply andb_true_iff in Hnew as [Hn Hp]. apply Z.eqb_eq in Hn. apply String.eqb_eq in Hp.
    intros H. right. left.
    destruct (processNewHeadLogs_effects B st) as [n [pre [Heq [Hok _]]]].
    exists prev, pre. split; [reflexivity|]. split; [exact Hn|]. split; [exact Hp|].
    split; [exact Hok|].
    unfold handleNewHead, svc_bind in H. rewrite Heq in H.
    unfold perform, svc_modify, add_effect, set_blocks, with_trace in H. cbn in H.
    rewrite <- app_assoc in H. exact H.
  - destruct (lb_number prev + 1 <? bw_number B).
    + intros H. destruct (handleGap_cases _ _ _ _ _ H) as [q ->]. left.
      exists q, []. split; [constructor|]. unfold set_queue. rewrite app_nil_r. reflexivity.
    + intros H. destruct (handleReorg_cases _ _ _ _ _ H) as [[e [-> He]]|HA].
      * left. exists (queue st), e. split; [exact He | reflexivity].
      * right. right. exact HA.
Qed.

End RealtimeSyncCases.

Section LocalChainLemmas.

Lemma filter_Forall_true {A} (f : A -> bool) (l : list A) :
  Forall (fun x => f x = true) l -> List.filter f l = l.
Proof. induction 1 as [|x l Hx _ IH]; cbn; [reflexivity|]. rewrite Hx, IH. reflexivity. Qed.

Lemma filter_Forall_false {A} (f : A -> bool) (l : list A) :
  Forall (fun x => f x = false) l -> List.filter f l = [].
Proof. induction 1 as [|x l Hx _ IH]; cbn; [reflexivity|]. rewrite Hx, IH. reflexivity. Qed.

Lemma filter_cons_eq {A} (f : A -> bool) (x : A) (l : list A) :
  List.filter f (x :: l) = if f x then x :: List.filter f l else List.filter f l.
Proof. reflexivity. Qed.

Lemma linkedFrom_above (p : LightBlock) (bs : list LightBlock) :
  linkedFrom p bs -> Forall (fun x => lb_number p < lb_number x) bs.
Proof.
  revert p. induction bs as [|b r IH]; intros p H; [constructor|].
  destruct H as [Hn [_ Hr]]. constructor; [lia|].
  eapply Forall_impl; [exact (IH b Hr)|]. intros y Hy. cbn in Hy. lia.
Qed.

Lemma localChainOk_ge (fin : Z) (bs : list LightBlock) (x : LightBlock) :
  localChainOk fin bs -> In x bs -> fin <= lb_number x.
Proof.
  destruct bs as [|b r]; [contradiction|]. intros [Hb Hr] [->|Hin]; [lia|].
  pose proof (linkedFrom_above b r Hr) as Ha. rewrite List.Forall_forall in Ha.
  specialize (Ha x Hin). lia.
Qed.

Lemma linkedFrom_snoc (p : LightBlock) (bs : list LightBlock) (q x : LightBlock) :
  linkedFrom p bs -> last (p :: bs) = Some q ->
  lb_number x = lb_number q + 1 -> lb_parentHash x = lb_hash q ->
  linkedFrom p (bs ++ [x]).
Proof.
  revert p. induction bs as [|b r IH]; intros p H Hl Hn Hh.
  - cbn in Hl. injection Hl as <-. cbn. tauto.
  - destruct H as [H1 [H2 H3]]. cbn [app linkedFrom].
    split; [exact H1|]. split; [exact H2|]. exact (IH b H3 Hl Hn Hh).
Qed.

(** Keeping the blocks at or above a member [F] of a linked chain leaves a
    linked chain that starts at [F]. *)
Lemma linkedFrom_filter_ge (p F : LightBlock) (bs : list LightBlock) :
  linkedFrom p bs -> (F = p \/ In F bs) ->
  exists rest, List.filter (fun b => lb_number F <=? lb_number b) (p :: bs) = F :: rest /\
               linkedFrom F rest.
Proof.
  revert p. induction bs as [|b r IH]; intros p H HF.
  - destruct HF as [->|[]]. exists []. cbn. rewrite Z.leb_refl. split; [reflexivity | exact I].
  - destruct HF as [->|HF].
    + exists (b :: r). rewrite filter_cons_eq, Z.leb_refl. split; [|exact H].
      f_equal. apply filter_Forall_true.
      eapply Forall_impl; [exact (linkedFrom_above _ _ H)|]. intros y Hy. cbn in Hy.
      apply Z.leb_le. lia.
    + pose proof (linkedFrom_above _ _ H) as Ha. rewrite List.Forall_forall in Ha.
      specialize (Ha F HF). destruct H as [_ [_ Hr]].
      rewrite filter_cons_eq. replace (lb_number F <=? lb_number p) with false
        by (symmetry; apply Z.leb_gt; lia).
      apply IH; [exact Hr|]. destruct HF as [->|HF]; [left; reflexivity | right; exact HF].
Qed.

(** Keeping the blocks at or below a number not below the head leaves a
    linked prefix. *)
Lemma linkedFrom_filter_le (p : LightBlock) (bs : list LightBlock) (n : Z) :
  linkedFrom p bs -> lb_number p <= n ->
  exists rest, List.filter (fun b => lb_number b <=? n) (p :: bs) = p :: rest /\
               linkedFrom p rest.
Proof.
  revert p. induction bs as [|b r IH]; intros p H Hp.
  - exists []. cbn. rewrite (proj2 (Z.leb_le _ _) Hp). split; [reflexivity | exact I].
  - pose proof (linkedFrom_above _ _ H) as Ha. destruct H as [Hn [Hh Hr]].
    rewrite filter_cons_eq, (proj2 (Z.leb_le _ _) Hp).
    destruct (Z.le_gt_cases (lb_number b) n) as [Hb|Hb].
    + destruct (IH b Hr Hb) as [rest [Hf Hl]]. exists (b :: rest). rewrite Hf.
      split; [reflexivity|]. exact (conj Hn (conj Hh Hl)).
    + exists []. split; [|exact I]. f_equal.
      rewrite filter_cons_eq. replace (lb_number b <=? n) with false
        by (symmetry; apply Z.leb_gt; lia).
      apply filter_Forall_false.
      eapply Forall_impl; [exact (linkedFrom_above _ _ Hr)|]. intros y Hy. cbn in Hy.
      apply Z.leb_gt. lia.
Qed.

End LocalChainLemmas.

Section RealtimeSyncExtras.

Variable isMatchedLogInBloomFilter : string -> list LogFilterCriteria -> bool.
Variable filterLogs : list Log -> list LogFilterCriteria -> list Log.
Variable network : Network.
Variable logFilters : list LogFilter.

Local Abbreviation worker :=
  (blockTaskWorker isMatchedLogInBloomFilter filterLogs network logFilters).
Local Abbreviation fbc := (net_finalityBlockCount network).
Local Abbreviation rpc := (net_client network).
Local Abbreviation effectOk :=
  (workerEffectOk isMatchedLogInBloomFilter filterLogs network logFilters).

Lemma existsb_hash_false (bs : list LightBlock) (h : string) :
  (forall b, In b bs -> lb_hash b <> h) ->
  existsb (fun b => String.eqb (lb_hash b) h) bs = false.
Proof.
  intros H. apply not_true_iff_false. intros He.
  apply existsb_exists in He as [b [Hin Heq]]. apply String.eqb_eq in Heq.
  exact (H b Hin Heq).
Qed.

Lemma newHead_false (B : BlockWithTransactions) (prev : LightBlock) :
  ~ (bw_number B = lb_number prev + 1 /\ bw_parentHash B = lb_hash prev) ->
  ((bw_number B =? lb_number prev + 1) && String.eqb (bw_parentHash B) (lb_hash prev))%bool
    = false.
Proof.
  intros Hnot. apply not_true_iff_false. intros E.
  apply andb_true_iff in E as [E1 E2]. apply Hnot.
  split; [apply Z.eqb_eq | apply String.eqb_eq]; assumption.
Qed.

Lemma worker_gap (fuel : nat) (st : ServiceState) (B : BlockWithTransactions)
    (prev : LightBlock) :
  existsb (fun b => String.eqb (lb_hash b) (bw_hash B)) (blocks st) = false ->
  last (blocks st) = Some prev ->
  lb_number prev + 1 < bw_number B ->
  worker fuel B st = handleGap network prev B st.
Proof.
  intros Hdup Hlast Hgap. unfold blockTaskWorker, svc_bind, svc_get, rpcBlockToLightBlock.
  cbn [lb_hash lb_number lb_parentHash].
  rewrite Hdup, Hlast.
  replace (bw_number B =? lb_number prev + 1) with false by (symmetry; apply Z.eqb_neq; lia).
  replace (lb_number prev + 1 <? bw_number B) with true by (symmetry; apply Z.ltb_lt; lia).
  reflexivity.
Qed.

Lemma range_In (a b n : Z) : In n (range a b) <-> a <= n < b.
Proof.
  unfold range. rewrite in_map_iff. split.
  - intros [i [<- Hi]]. apply in_seq in Hi. lia.
  - intros Hn. exists (Z.to_nat (n - a)). split; [lia|]. apply in_seq. lia.
Qed.

Lemma fetchMissingBlocks_ok (ns : list Z) (st : ServiceState) :
  (forall n, In n ns -> exists b, eth_getBlockByNumber rpc n = Some b /\ bw_number b = n) ->
  exists bs, map bw_number bs = ns /\ fetchMissingBlocks network ns st = (Ok bs, st).
Proof.
  induction ns as [|n ns IH]; intros H; [exists []; split; reflexivity|].
  destruct (H n (or_introl eq_refl)) as [b [Hb Hn]].
  destruct IH as [bs [Hm He]]; [intros k Hk; exact (H k (or_intror Hk))|].
  exists (b :: bs). cbn [fetchMissingBlocks]. unfold client. rewrite Hb.
  unfold svc_bind. rewrite He. cbn. split; [congruence | reflexivity].
Qed.

Lemma fetchMissingBlocks_fail (ns : list Z) (st : ServiceState) :
  (exists n, In n ns /\ eth_getBlockByNumber rpc n = None) ->
  fetchMissingBlocks network ns st = (Throw "Failed to fetch block number", st).
Proof.
  induction ns as [|a ns IH]; intros [n [Hin Hn]]; [destruct Hin|].
  cbn [fetchMissingBlocks]. unfold client.
  destruct (eth_getBlockByNumber rpc a) as [b|] eqn:Ha; [|reflexivity].
  destruct Hin as [->|Hin]; [congruence|].
  unfold svc_bind. rewrite IH by eauto. reflexivity.
Qed.

(** What a block task appends to the trace, and that it never touches the
    queue's started flag or the polling. *)
Lemma worker_trace (fuel : nat) (B : BlockWithTransactions) (st st' : ServiceState)
    (r : Outcome unit) :
  worker fuel B st = (r, st') ->
  exists new, trace st' = trace st ++ new /\ Forall (effectOk st B) new /\
    queueStarted st' = queueStarted st /\ polling st' = polling st.
Proof.
  intros H.
  destruct (blockTaskWorker_cases _ _ _ _ _ _ _ _ _ H)
    as [[q [e [He ->]]]|[[prev [pre [Hl [Hn [Hp [Hok Hadv]]]]]]|[A [q [e [HA [He ->]]]]]]].
  - exists e. cbn. split; [reflexivity|]. split; [|split; reflexivity].
    eapply Forall_impl; [exact He|]. intros x [ev ->]. exact I.
  - apply advanceFinality_cases in Hadv as [->|[_ [F [HF [HFn ->]]]]].
    + exists (pre ++ [emit (realtimeCheckpoint (bw_timestamp B))]). cbn.
      split; [reflexivity|]. split; [|split; reflexivity].
      apply Forall_app. split; [exact Hok | constructor; [exact I | constructor]].
    + cbn in HF, HFn |- *.
      exists (pre ++ [emit (realtimeCheckpoint (bw_timestamp B));
                     insertLogFilterCachedRanges (map (fun l => lfc_key (lf_filter l)) logFilters)
                       (finalizedBlockNumber st + 1) (lb_number F) (lb_timestamp F);
                     emit (finalityCheckpoint (lb_timestamp F))]).
      split; [rewrite <- !app_assoc; reflexivity|]. split; [|split; reflexivity].
      apply Forall_app. split; [exact Hok|].
      constructor; [exact I|]. constructor; [|constructor; [exact I | constructor]].
      split; [reflexivity|]. split; [reflexivity|].
      exists F. split; [exact HF|]. split; [exact HFn|]. split; reflexivity.
  - exists (deleteRealtimeData (net_chainId network) (lb_number A + 1) :: e). cbn.
    split; [reflexivity|]. split; [|split; reflexivity].
    constructor.
    + split; [reflexivity|]. exists A. split; [exact HA | reflexivity].
    + eapply Forall_impl; [exact He|]. intros x [ev ->]. exact I.
Qed.



(** X3: a gap task.  When every missing number is answered with a block of
    that number, the worker enqueues the missing blocks in ascending order,
    then [B], each with priority [MAX_SAFE_INTEGER - number], and changes
    nothing else. *)
Theorem blockTaskWorker_gap_enqueues (fuel : nat) (st : ServiceState)
    (B : BlockWithTransactions) (prev : LightBlock) :
  (forall b, In b (blocks st) -> lb_hash b <> bw_hash B) ->
  last (blocks st) = Some prev ->
  lb_number prev + 1 < bw_number B ->
  (forall n, lb_number prev < n < bw_number B ->
     exists b, eth_getBlockByNumber rpc n = Some b /\ bw_number b = n) ->
  exists missing,
    map bw_number missing = range (lb_number prev + 1) (bw_number B) /\
    worker fuel B st =
      (Ok tt, set_queue (queue st ++ map (fun b => (b, MAX_SAFE_INTEGER - bw_number b))
                                       (missing ++ [B])) st).
Proof.
  intros Hdup Hlast Hgap Hfetch.
  rewrite (worker_gap fuel st B prev (existsb_hash_false _ _ Hdup) Hlast Hgap).
  unfold handleGap, svc_bind.
  destruct (fetchMissingBlocks_ok (range (lb_number prev + 1) (bw_number B)) st)
    as [bs [Hm He]].
  { intros n Hn. apply range_In in Hn. apply Hfetch. lia. }
  rewrite He, forM_addTask. exists bs. split; [exact Hm | reflexivity].
Qed.

(** X4: a gap task whose missing blocks cannot all be fetched throws and
    leaves the state as it was: nothing is enqueued. *)
Theorem blockTaskWorker_gap_fetch_failure (fuel : nat) (st : ServiceState)
    (B : BlockWithTransactions) (prev : LightBlock) (n : Z) :
  (forall b, In b (blocks st) -> lb_hash b <> bw_hash B) ->
  last (blocks st) = Some prev ->
  lb_number prev + 1 < bw_number B ->
  lb_number prev < n < bw_number B -> eth_getBlockByNumber rpc n = None ->
  worker fuel B st = (Throw "Failed to fetch block number", st).
Proof.
  intros Hdup Hlast Hgap Hn Hnone.
  rewrite (worker_gap fuel st B prev (existsb_hash_false _ _ Hdup) Hlast Hgap).
  unfold handleGap, svc_bind.
  rewrite fetchMissingBlocks_fail; [reflexivity|].
  exists n. split; [apply range_In; lia | exact Hnone].
Qed.

(** X5: a reorg task above the finalized block whose parent is neither local
    nor returned by [eth_getBlockByHash] throws and leaves the state as it
    was. *)
Theorem blockTaskWorker_parent_fetch_failure (fuel : nat) (st : ServiceState)
    (B : BlockWithTransactions) (prev : LightBlock) :
  (forall b, In b (blocks st) -> lb_hash b <> bw_hash B) ->
  last (blocks st) = Some prev ->
  ~ (bw_number B = lb_number prev + 1 /\ bw_parentHash B = lb_hash prev) ->
  bw_number B <= lb_number prev + 1 ->
  finalizedBlockNumber st < bw_number B ->
  (forall b, In b (blocks st) -> lb_hash b <> bw_parentHash B) ->
  eth_getBlockByHash rpc (bw_parentHash B) = None ->
  worker (S fuel) B st = (Throw "Failed to fetch parent block with hash", st).
Proof.
  intros Hdup Hlast Hnot Hle Hfin Hloc Hnone.
  rewrite (worker_reorg isMatchedLogInBloomFilter filterLogs network logFilters (S fuel) st B prev (existsb_hash_false _ _ Hdup) Hlast
             (newHead_false B prev Hnot) Hle).
  unfold handleReorg, svc_bind, svc_get. cbn [traverseCanonical rpcBlockToLightBlock lb_number lb_parentHash].
  rewrite (proj2 (Z.ltb_lt _ _) Hfin).
  destruct (List.find _ (blocks st)) as [A|] eqn:Hf.
  { apply List.find_some in Hf as [Hin Heq]. apply String.eqb_eq in Heq.
    exfalso. exact (Hloc A Hin Heq). }
  unfold client. rewrite Hnone. reflexivity.
Qed.

(** X6: a reorg task whose traversal finds the common ancestor [A] but whose
    closing fetch of the latest block fails: the local chain has already
    been cut after [A], [deleteRealtimeData(A.number + 1)] has been called
    and the queue replaced by the canonical blocks; the worker then throws
    without emitting [shallowReorg]. *)
Theorem blockTaskWorker_reorg_latest_failure (fuel : nat) (st : ServiceState)
    (B : BlockWithTransactions) (prev A : LightBlock)
    (canonical : list BlockWithTransactions) (depth : nat) :
  (forall b, In b (blocks st) -> lb_hash b <> bw_hash B) ->
  last (blocks st) = Some prev ->
  ~ (bw_number B = lb_number prev + 1 /\ bw_parentHash B = lb_hash prev) ->
  bw_number B <= lb_number prev + 1 ->
  traverseCanonical network (blocks st) (finalizedBlockNumber st) fuel [B]
    (rpcBlockToLightBlock B) 0 = AncestorFound A canonical depth ->
  eth_getBlockByNumber_latest rpc = None ->
  worker fuel B st =
    (Throw "Unable to fetch latest block",
     {| blocks := List.filter (fun b => lb_number b <=? lb_number A) (blocks st);
        finalizedBlockNumber := finalizedBlockNumber st;
        queue := map (fun b => (b, MAX_SAFE_INTEGER - bw_number b)) canonical;
        queueStarted := queueStarted st; polling := polling st;
        trace := trace st ++ [deleteRealtimeData (net_chainId network) (lb_number A + 1)] |}).
Proof.
  intros Hdup Hlast Hnot Hle Htr Hlatest.
  rewrite (worker_reorg isMatchedLogInBloomFilter filterLogs network logFilters fuel st B prev (existsb_hash_false _ _ Hdup) Hlast
             (newHead_false B prev Hnot) Hle).
  unfold handleReorg, svc_bind at 1, svc_get. rewrite Htr.
  unfold svc_bind, svc_modify, perform, clearQueue, add_effect, set_blocks, set_queue.
  cbn -[svc_forM addNewLatestBlock].
  rewrite forM_addTask.
  unfold addNewLatestBlock, getLatestBlock, client, svc_bind. rewrite Hlatest.
  reflexivity.
Qed.

(** X7: a new head block that does not move finality
    ([B.number <= finalizedBlockNumber + 2 * finalityBlockCount]) is
    appended to the local chain after the optional [insertRealtimeBlock] of
    its matched logs (none when the bloom filter rules the block out) and a
    [realtimeCheckpoint]; the finalized block number and the queue are
    unchanged. *)
Theorem blockTaskWorker_new_head_no_finality (fuel : nat) (st : ServiceState)
    (B : BlockWithTransactions) (prev : LightBlock) :
  (forall b, In b (blocks st) -> lb_hash b <> bw_hash B) ->
  last (blocks st) = Some prev ->
  bw_number B = lb_number prev + 1 -> bw_parentHash B = lb_hash prev ->
  bw_number B <= finalizedBlockNumber st + 2 * fbc ->
  exists pre,
    Forall (effectOk st B) pre /\
    (isMatchedLogInBloomFilter (bw_logsBloom B) (map lf_filter logFilters) = false ->
     pre = []) /\
    worker fuel B st =
      (Ok tt,
       {| blocks := blocks st ++ [rpcBlockToLightBlock B];
          finalizedBlockNumber := finalizedBlockNumber st;
          queue := queue st; queueStarted := queueStarted st; polling := polling st;
          trace := trace st ++ pre ++ [emit (realtimeCheckpoint (bw_timestamp B))] |}).
Proof.
  intros Hdup Hlast Hn Hp Hno.
  rewrite (worker_newHead isMatchedLogInBloomFilter filterLogs network logFilters fuel st B prev (existsb_hash_false _ _ Hdup) Hlast Hn Hp).
  destruct (processNewHeadLogs_effects isMatchedLogInBloomFilter filterLogs network logFilters B st) as [n [pre [Heq [Hok Hb]]]].
  exists pre. split; [exact Hok|]. split; [exact Hb|].
  unfold handleNewHead, svc_bind. rewrite Heq.
  unfold perform, svc_modify, add_effect, set_blocks, with_trace. cbn [blocks trace
    finalizedBlockNumber queue queueStarted polling].
  unfold advanceFinality, svc_bind, svc_get, finalityBlockCount.
  cbn [finalizedBlockNumber lb_number rpcBlockToLightBlock].
  rewrite (proj2 (Z.ltb_ge _ _) Hno). unfold svc_ret. rewrite <- app_assoc. reflexivity.
Qed.

End RealtimeSyncExtras.

Section RealtimeSyncInvariants.

Variable isMatchedLogInBloomFilter : string -> list LogFilterCriteria -> bool.
Variable filterLogs : list Log -> list LogFilterCriteria -> list Log.
Variable network : Network.
Variable logFilters : list LogFilter.

Local Abbreviation worker :=
  (blockTaskWorker isMatchedLogInBloomFilter filterLogs network logFilters).
Local Abbreviation fbc := (net_finalityBlockCount network).
Local Abbreviation rpc := (net_client network).
Local Abbreviation effectOk :=
  (workerEffectOk isMatchedLogInBloomFilter filterLogs network logFilters).

(** X8: every block task, whatever its outcome (including a thrown error),
    only appends to the trace, each appended effect is one the worker's
    branches make with the arguments the code gives it ([workerEffectOk]),
    and the started flag of the queue and the polling are untouched. *)
Theorem blockTaskWorker_effects (fuel : nat) (B : BlockWithTransactions)
    (st st' : ServiceState) (r : Outcome unit) :
  worker fuel B st = (r, st') ->
  exists new, trace st' = trace st ++ new /\ Forall (effectOk st B) new /\
    queueStarted st' = queueStarted st /\ polling st' = polling st.
Proof.
  intros H. exact (worker_trace isMatchedLogInBloomFilter filterLogs network logFilters fuel B st st' r H).
Qed.

(** X9: the worker keeps the local chain well formed (it starts at the
    finalized block number and each block extends the previous one by
    number and parent hash), whatever its outcome, and never lowers the
    finalized block number. *)
Theorem blockTaskWorker_localChain_invariant (fuel : nat) (B : BlockWithTransactions)
    (st st' : ServiceState) (r : Outcome unit) :
  localChainOk (finalizedBlockNumber st) (blocks st) ->
  worker fuel B st = (r, st') ->
  localChainOk (finalizedBlockNumber st') (blocks st') /\
  finalizedBlockNumber st <= finalizedBlockNumber st'.
Proof.
  intros Hok H.
  destruct (blocks st) as [|b0 r0] eqn:Hbs; [contradiction|].
  destruct Hok as [Hb0 Hr0].
  destruct (blockTaskWorker_cases _ _ _ _ _ _ _ _ _ H)
    as [[q [e [He ->]]]|[[prev [pre [Hl [Hn [Hp [Hok Hadv]]]]]]|[A [q [e [HA [He ->]]]]]]];
    rewrite Hbs in *.
  - cbn. split; [exact (conj Hb0 Hr0) | lia].
  - assert (Hlink : linkedFrom b0 (r0 ++ [rpcBlockToLightBlock B]))
      by exact (linkedFrom_snoc b0 r0 prev (rpcBlockToLightBlock B) Hr0 Hl Hn Hp).
    apply advanceFinality_cases in Hadv as [->|[_ [F [HF [HFn ->]]]]].
    + cbn. split; [exact (conj Hb0 Hlink) | lia].
    + cbn in HF, HFn. cbn [blocks finalizedBlockNumber app].
      assert (HF' : F = b0 \/ In F (r0 ++ [rpcBlockToLightBlock B]))
        by (destruct HF as [->|HF]; [left; reflexivity | right; exact HF]).
      destruct (linkedFrom_filter_ge b0 F _ Hlink HF') as [rest [Hf Hrest]].
      rewrite Hf. split; [exact (conj eq_refl Hrest)|].
      rewrite <- Hb0.
      exact (localChainOk_ge (lb_number b0) (b0 :: r0 ++ [rpcBlockToLightBlock B]) F
               (conj eq_refl Hlink) HF).
  - cbn [blocks finalizedBlockNumber]. pose proof (localChainOk_ge _ (b0 :: r0) A (conj Hb0 Hr0) HA) as HAfin.
    destruct (linkedFrom_filter_le b0 r0 (lb_number A) Hr0 ltac:(lia)) as [rest [Hf Hrest]].
    rewrite Hf. split; [exact (conj Hb0 Hrest) | lia].
Qed.

(** X10: on a well-formed local chain, a block task only deletes realtime
    data strictly above the finalized block number, records cached ranges
    [finalizedBlockNumber + 1 .. finalizedBlockNumber + finalityBlockCount]
    for the network, and inserts no block but the task's own. *)
Theorem blockTaskWorker_effect_bounds (fuel : nat) (B : BlockWithTransactions)
    (st st' : ServiceState) (r : Outcome unit) :
  localChainOk (finalizedBlockNumber st) (blocks st) ->
  worker fuel B st = (r, st') ->
  exists new, trace st' = trace st ++ new /\
    Forall (fun e => match e with
                     | deleteRealtimeData chainId fromBlockNumber =>
                         chainId = net_chainId network /\
                         finalizedBlockNumber st < fromBlockNumber
                     | insertLogFilterCachedRanges _ startBlock endBlock _ =>
                         startBlock = finalizedBlockNumber st + 1 /\
                         endBlock = finalizedBlockNumber st + fbc
                     | insertRealtimeBlock chainId block _ _ =>
                         chainId = net_chainId network /\ block = B
                     | emit _ => True
                     end) new.
Proof.
  intros Hok H. destruct (worker_trace isMatchedLogInBloomFilter filterLogs network logFilters fuel B st st' r H) as [new [Ht [Hall _]]].
  exists new. split; [exact Ht|].
  eapply Forall_impl; [exact Hall|]. intros e He. cbn in He.
  destruct e as [c blk txs ls|keys sb eb ts|c from|ev].
  - destruct He as [Hc [Hb _]]. split; assumption.
  - destruct He as [_ [Hs [F [_ [HFn [He _]]]]]]. split; [exact Hs | congruence].
  - destruct He as [Hc [A [HA ->]]]. split; [exact Hc|].
    pose proof (localChainOk_ge _ _ A Hok HA). lia.
  - exact I.
Qed.

(** X11: [setup()] followed by [start()] on a fresh service: with a latest
    block [L], a log filter still live at the finalized block number
    [max(0, L.number - finalityBlockCount)] and the block [F] of that number
    fetched, the local chain is [[F]], [L] is the one queued task (priority
    [MAX_SAFE_INTEGER - L.number]), the queue is started, polling is on and
    nothing has been written or emitted; the local chain then satisfies the
    worker's invariant. *)
Theorem setup_then_start (L F : BlockWithTransactions) :
  eth_getBlockByNumber_latest rpc = Some L ->
  allLogFiltersEnded logFilters (Z.max 0 (bw_number L - fbc)) = false ->
  eth_getBlockByNumber rpc (Z.max 0 (bw_number L - fbc)) = Some F ->
  bw_number F = Z.max 0 (bw_number L - fbc) ->
  (setup network ;;; start network logFilters) initialServiceState =
    (Ok tt, {| blocks := [rpcBlockToLightBlock F];
               finalizedBlockNumber := Z.max 0 (bw_number L - fbc);
               queue := [(L, MAX_SAFE_INTEGER - bw_number L)];
               queueStarted := true; polling := true; trace := [] |}) /\
  localChainOk (Z.max 0 (bw_number L - fbc)) [rpcBlockToLightBlock F].
Proof.
  intros HL Hend HF HFn. split; [|split; [exact HFn | exact I]].
  unfold setup, start, svc_bind, getLatestBlock, client, finalityBlockCount.
  rewrite HL.
  unfold svc_ret, svc_modify, svc_get, addTask, set_finalizedBlockNumber, set_queue.
  cbn -[allLogFiltersEnded Z.max MAX_SAFE_INTEGER].
  rewrite Hend. cbn -[Z.max MAX_SAFE_INTEGER]. rewrite HF. reflexivity.
Qed.

(** X12: after [kill()] the queue is empty, so a later [start()] throws the
    setup error unless every log filter has ended. *)
Theorem kill_then_start (st : ServiceState) :
  allLogFiltersEnded logFilters (finalizedBlockNumber st) = false ->
  (kill ;;; start network logFilters) st =
    (Throw "Unable to start. Must call setup() method before start().",
     {| blocks := blocks st; finalizedBlockNumber := finalizedBlockNumber st;
        queue := []; queueStarted := false; polling := false; trace := trace st |}).
Proof.
  intros Hend. unfold kill, start, svc_bind, svc_modify, svc_get.
  cbn [finalizedBlockNumber queue]. rewrite Hend. reflexivity.
Qed.

End RealtimeSyncInvariants.

(* ================================================================== *)
(** ** Cache store: further properties *)

Section CacheStoreExtras.


Lemma insertLogs_lookup_eq (logs : list CacheLog) (s : CacheStore) (k : string) :
  logsTable (insertLogs logs s) !! k =
  match logsTable s !! k with
  | Some l => Some l
  | None => option_map logRow (List.find (fun l => String.eqb (cl_logId l) k) logs)
  end.
Proof.
  unfold insertLogs. revert s. induction logs as [|lg logs IH]; intros s; cbn.
  - destruct (logsTable s !! k); reflexivity.
  - rewrite IH. unfold insertLogRow.
    destruct (logsTable s !! cl_logId lg) as [l0|] eqn:He.
    + destruct (String.eqb_spec (cl_logId lg) k) as [<-|Hne]; [rewrite He; reflexivity|].
      reflexivity.
    + cbn. destruct (String.eqb_spec (cl_logId lg) k) as [<-|Hne].
      * rewrite lookup_insert_eq, He. reflexivity.
      * rewrite lookup_insert_ne by exact Hne. reflexivity.
Qed.

Lemma insertLogs_keeps (logs : list CacheLog) (s : CacheStore) (k : string) (l : CacheLog) :
  logsTable s !! k = Some l -> logsTable (insertLogs logs s) !! k = Some l.
Proof. intros H. rewrite insertLogs_lookup_eq, H. reflexivity. Qed.

Lemma getLogs_In (c : string) (f t : Z) (s : CacheStore) (l : CacheLog) :
  In l (getLogs c f t s) <->
  exists k, logsTable s !! k = Some l /\ cl_address l = c /\
    exists ts, cl_blockTimestamp l = Some ts /\ f < ts <= t.
Proof.
  unfold getLogs. rewrite in_map_iff. split.
  - intros [[k l'] [Hl Hin]]. cbn in Hl. subst l'.
    apply List.filter_In in Hin as [Hin Hc]. cbn in Hc.
    apply list_elem_of_In, elem_of_map_to_list in Hin.
    apply andb_true_iff in Hc as [Ha Hts]. apply String.eqb_eq in Ha.
    exists k. split; [exact Hin|]. split; [exact Ha|].
    destruct (cl_blockTimestamp l) as [ts|]; [|discriminate].
    apply andb_true_iff in Hts as [H1 H2]. apply Z.ltb_lt in H1. apply Z.leb_le in H2.
    exists ts. split; [reflexivity | lia].
  - intros [k [Hk [Ha [ts [Hts Hw]]]]]. exists (k, l). split; [reflexivity|].
    apply List.filter_In. split.
    + apply list_elem_of_In, elem_of_map_to_list. exact Hk.
    + cbn. rewrite Ha, String.eqb_refl, Hts. cbn.
      apply andb_true_iff. split; [apply Z.ltb_lt | apply Z.leb_le]; lia.
Qed.

(** X13: [insertCachedInterval], with any [merge_intervals], leaves the
    cached intervals of every other contract as they were. *)
Theorem insertCachedInterval_other_contracts
    (merge : list (Z * Z) -> list (Z * Z)) (tbl tbl' : CachedIntervalsTable)
    (iv : CachedInterval) (c : string) :
  insertCachedInterval merge tbl iv = Ok tbl' -> c <> ci_contractAddress iv ->
  getCachedIntervals c tbl' = getCachedIntervals c tbl.
Proof.
  intros Hok Hne. destruct (insertCachedInterval_shape merge tbl tbl' iv Hok)
    as [rows [-> Hrows]].
  rewrite getCachedIntervals_app, (getCachedIntervals_otherRows_other c _ tbl Hne).
  assert (Hc : Forall (fun r => ci_contractAddress r = ci_contractAddress iv) rows).
  { destruct Hrows as [[_ ->]|[_ Hm]].
    - constructor; [reflexivity | constructor].
    - exact (proj1 (proj2 (insertMergedIntervals_ok _ _ _ _ Hm))). }
  rewrite (rows_getCachedIntervals_other c _ rows Hne Hc), app_nil_r. reflexivity.
Qed.


(** X15: [getBlock] after [insertBlock]: a block already stored under the
    hash is kept (ON CONFLICT DO NOTHING), otherwise the inserted block is
    returned; other hashes are unaffected. *)
Theorem getBlock_insertBlock (b : CacheBlock) (s : CacheStore) (h : string) :
  getBlock h (insertBlock b s) =
  match getBlock h s with
  | Some x => Some x
  | None => if String.eqb h (cb_hash b) then Some b else None
  end.
Proof.
  unfold getBlock, insertBlock, backfillBlockTimestamp, insertBlockRow. cbn [blocksTable set_logsTable].
  destruct (blocksTable s !! cb_hash b) as [x0|] eqn:E;
    destruct (String.eqb_spec h (cb_hash b)) as [->|Hne].
  - rewrite E. reflexivity.
  - destruct (blocksTable s !! h); reflexivity.
  - cbn. rewrite lookup_insert_eq, E. reflexivity.
  - cbn. rewrite lookup_insert_ne by congruence. destruct (blocksTable s !! h); reflexivity.
Qed.

(** X16: [getTransaction] after [insertTransactions]: the transaction
    already stored under the hash, otherwise the first inserted one with
    that hash, otherwise [null]. *)
Theorem getTransaction_insertTransactions (ts : list CacheTransaction) (s : CacheStore)
    (h : string) :
  getTransaction h (insertTransactions ts s) =
  match getTransaction h s with
  | Some t => Some t
  | None => List.find (fun t => String.eqb (ct_hash t) h) ts
  end.
Proof.
  unfold getTransaction, insertTransactions. revert s.
  induction ts as [|t ts IH]; intros s; cbn.
  - destruct (transactionsTable s !! h); reflexivity.
  - rewrite IH. unfold insertTransactionRow.
    destruct (transactionsTable s !! ct_hash t) as [t0|] eqn:He.
    + destruct (String.eqb_spec (ct_hash t) h) as [<-|Hne]; [rewrite He; reflexivity|].
      reflexivity.
    + cbn. destruct (String.eqb_spec (ct_hash t) h) as [<-|Hne].
      * rewrite lookup_insert_eq, He. reflexivity.
      * rewrite lookup_insert_ne by exact Hne. reflexivity.
Qed.

(** X17: the logs table after [insertLogs]: a row already stored under a
    logId is kept, otherwise the first inserted log with that logId is
    stored, with a NULL [blockTimestamp]. *)
Theorem insertLogs_lookup (logs : list CacheLog) (s : CacheStore) (k : string) :
  logsTable (insertLogs logs s) !! k =
  match logsTable s !! k with
  | Some l => Some l
  | None =>
      option_map (fun l => {| cl_logId := cl_logId l; cl_address := cl_address l;
                              cl_blockHash := cl_blockHash l; cl_blockNumber := cl_blockNumber l;
                              cl_blockTimestamp := None;
                              cl_transactionHash := cl_transactionHash l |})
        (List.find (fun l => String.eqb (cl_logId l) k) logs)
  end.
Proof. rewrite insertLogs_lookup_eq. reflexivity. Qed.

(** X18: [insertLogs] alone never changes what [getLogs] returns: the new
    rows have no [blockTimestamp] yet, and the stored rows are kept. *)
Theorem getLogs_insertLogs (logs : list CacheLog) (s : CacheStore) (c : string) (f t : Z)
    (l : CacheLog) :
  In l (getLogs c f t (insertLogs logs s)) <-> In l (getLogs c f t s).
Proof.
  rewrite !getLogs_In. split.
  - intros [k [Hk [Ha [ts [Hts Hw]]]]].
    destruct (insertLogs_source logs s k l Hk) as [Hs|[lg [_ ->]]].
    + exists k. eauto 6.
    + cbn in Hts. discriminate.
  - intros [k [Hk Hrest]]. exists k. split; [exact (insertLogs_keeps logs s k l Hk) | exact Hrest].
Qed.

(** X19: after [insertBlock b], a stored log of block [b] is returned by
    [getLogs(address, from, to)], with [b]'s timestamp, exactly when its
    address matches and [from < b.timestamp <= to]. *)
Theorem getLogs_insertBlock (b : CacheBlock) (s : CacheStore) (k : string) (l0 : CacheLog)
    (c : string) (f t : Z) :
  logsTable s !! k = Some l0 -> cl_blockHash l0 = cb_hash b ->
  In {| cl_logId := cl_logId l0; cl_address := cl_address l0;
        cl_blockHash := cl_blockHash l0; cl_blockNumber := cl_blockNumber l0;
        cl_blockTimestamp := Some (cb_timestamp b);
        cl_transactionHash := cl_transactionHash l0 |}
     (getLogs c f t (insertBlock b s)) <->
  cl_address l0 = c /\ f < cb_timestamp b <= t.
Proof.
  intros Hk Hh. rewrite getLogs_In. cbn [cl_address cl_blockTimestamp]. split.
  - intros [k' [_ [Ha [ts [Hts Hw]]]]]. injection Hts as <-. split; [exact Ha | exact Hw].
  - intros [Ha Hw]. exists k. split; [|split; [exact Ha|]; exists (cb_timestamp b); split; [reflexivity | exact Hw]].
    unfold insertBlock, backfillBlockTimestamp. cbn [logsTable set_logsTable].
    rewrite lookup_fmap, insertBlockRow_logsTable, Hk. cbn.
    rewrite Hh, String.eqb_refl. reflexivity.
Qed.

(** X20: logs first stored by [insertLogs] become visible to [getLogs] once
    their block is inserted: for a log [lg] of block [b] whose logId was not
    stored and which is the first of the batch with that logId,
    [getLogs(lg.address, from, to)] after [insertLogs] then [insertBlock b]
    returns it, with [b]'s timestamp, exactly when
    [from < b.timestamp <= to]. *)
Theorem getLogs_insertLogs_insertBlock (logs : list CacheLog) (b : CacheBlock)
    (s : CacheStore) (lg : CacheLog) (f t : Z) :
  List.find (fun l => String.eqb (cl_logId l) (cl_logId lg)) logs = Some lg ->
  logsTable s !! cl_logId lg = None ->
  cl_blockHash lg = cb_hash b ->
  In {| cl_logId := cl_logId lg; cl_address := cl_address lg;
        cl_blockHash := cl_blockHash lg; cl_blockNumber := cl_blockNumber lg;
        cl_blockTimestamp := Some (cb_timestamp b);
        cl_transactionHash := cl_transactionHash lg |}
     (getLogs (cl_address lg) f t (insertBlock b (insertLogs logs s))) <->
  f < cb_timestamp b <= t.
Proof.
  intros Hfirst Hfresh Hh. rewrite getLogs_In. cbn [cl_address cl_blockTimestamp]. split.
  - intros [k' [_ [_ [ts [Hts Hw]]]]]. injection Hts as <-. exact Hw.
  - intros Hw. exists (cl_logId lg). split; [|split; [reflexivity|]; exists (cb_timestamp b); split; [reflexivity | exact Hw]].
    unfold insertBlock, backfillBlockTimestamp. cbn [logsTable set_logsTable].
    rewrite lookup_fmap, insertBlockRow_logsTable, insertLogs_lookup_eq, Hfresh, Hfirst.
    cbn. rewrite Hh, String.eqb_refl. reflexivity.
Qed.

End CacheStoreExtras.

(* ================================================================== *)
(** ** Witnesses of the further properties *)



Lemma blockTaskWorker_gap_enqueues_witness :
  exists missing,
    map bw_number missing = range (100 + 1) 103 /\
    blockTaskWorker (fun _ _ => false) (fun _ _ => []) (sample_network 2 sample_client)
      [sample_filter None] 5 (sample_block "H103" 103 "H102")
      (sample_state [sample_light "H100" 100 "H99"] 100 []) =
    (Ok tt, set_queue ([] ++ map (fun b => (b, MAX_SAFE_INTEGER - bw_number b))
                              (missing ++ [sample_block "H103" 103 "H102"]))
              (sample_state [sample_light "H100" 100 "H99"] 100 [])).
Proof.
  apply (blockTaskWorker_gap_enqueues _ _ _ _ 5
           (sample_state [sample_light "H100" 100 "H99"] 100 [])
           (sample_block "H103" 103 "H102") (sample_light "H100" 100 "H99")).
  - intros b [<-|[]]. discriminate.
  - reflexivity.
  - cbn. lia.
  - intros n _. exists (sample_block "h" n "p"). split; reflexivity.
Defined.

Lemma blockTaskWorker_gap_fetch_failure_witness :
  blockTaskWorker (fun _ _ => false) (fun _ _ => []) (sample_network 2 gap_client)
    [sample_filter None] 5 (sample_block "H103" 103 "H102")
    (sample_state [sample_light "H100" 100 "H99"] 100 []) =
  (Throw "Failed to fetch block number", sample_state [sample_light "H100" 100 "H99"] 100 []).
Proof.
  apply (blockTaskWorker_gap_fetch_failure _ _ _ _ 5
           (sample_state [sample_light "H100" 100 "H99"] 100 [])
           (sample_block "H103" 103 "H102") (sample_light "H100" 100 "H99") 101).
  - intros b [<-|[]]. discriminate.
  - reflexivity.
  - cbn. lia.
  - cbn. lia.
  - reflexivity.
Defined.

Lemma blockTaskWorker_parent_fetch_failure_witness :
  blockTaskWorker (fun _ _ => false) (fun _ _ => []) (sample_network 2 sample_client)
    [sample_filter None] 5 (sample_block "Z100" 100 "Z99") (sample_state reorg_chain 98 []) =
  (Throw "Failed to fetch parent block with hash", sample_state reorg_chain 98 []).
Proof.
  apply (blockTaskWorker_parent_fetch_failure _ _ _ _ 4 (sample_state reorg_chain 98 [])
           (sample_block "Z100" 100 "Z99") (sample_light "H100" 100 "H99")).
  - intros b Hb. cbn in Hb. destruct Hb as [<-|[<-|[<-|[]]]]; discriminate.
  - reflexivity.
  - cbn. intros [Hn _]. lia.
  - cbn. lia.
  - cbn. lia.
  - intros b Hb. cbn in Hb. destruct Hb as [<-|[<-|[<-|[]]]]; discriminate.
  - reflexivity.
Defined.

Lemma blockTaskWorker_reorg_latest_failure_witness :
  blockTaskWorker (fun _ _ => false) (fun _ _ => []) (sample_network 2 gap_client)
    [sample_filter None] 5 (sample_block "X" 100 "H99") (sample_state reorg_chain 98 []) =
  (Throw "Unable to fetch latest block",
   {| blocks := List.filter (fun b => lb_number b <=? 99) reorg_chain;
      finalizedBlockNumber := 98;
      queue := [(sample_block "X" 100 "H99", MAX_SAFE_INTEGER - 100)];
      queueStarted := false; polling := false;
      trace := [] ++ [deleteRealtimeData 1 (99 + 1)] |}).
Proof.
  apply (blockTaskWorker_reorg_latest_failure (fun _ _ => false) (fun _ _ => [])
           (sample_network 2 gap_client) [sample_filter None] 5 (sample_state reorg_chain 98 [])
           (sample_block "X" 100 "H99") (sample_light "H100" 100 "H99")
           (sample_light "H99" 99 "H98") [sample_block "X" 100 "H99"] 0).
  - intros b Hb. cbn in Hb. destruct Hb as [<-|[<-|[<-|[]]]]; discriminate.
  - reflexivity.
  - cbn. intros [Hn _]. lia.
  - cbn. lia.
  - vm_compute. reflexivity.
  - reflexivity.
Defined.

Lemma blockTaskWorker_new_head_no_finality_witness :
  exists pre,
    Forall (workerEffectOk (fun _ _ => false) (fun _ _ => []) (sample_network 2 sample_client)
              [sample_filter None] (sample_state reorg_chain 98 [])
              (sample_block "H101" 101 "H100")) pre /\
    ((fun _ _ => false) "0x0" (map lf_filter [sample_filter None]) = false -> pre = []) /\
    blockTaskWorker (fun _ _ => false) (fun _ _ => []) (sample_network 2 sample_client)
      [sample_filter None] 5 (sample_block "H101" 101 "H100") (sample_state reorg_chain 98 []) =
    (Ok tt,
     {| blocks := reorg_chain ++ [sample_light "H101" 101 "H100"];
        finalizedBlockNumber := 98; queue := []; queueStarted := false; polling := false;
        trace := [] ++ pre ++ [emit (realtimeCheckpoint 1101)] |}).
Proof.
  apply (blockTaskWorker_new_head_no_finality (fun _ _ => false) (fun _ _ => [])
           (sample_network 2 sample_client) [sample_filter None] 5 (sample_state reorg_chain 98 [])
           (sample_block "H101" 101 "H100") (sample_light "H100" 100 "H99")).
  - intros b Hb. cbn in Hb. destruct Hb as [<-|[<-|[<-|[]]]]; discriminate.
  - reflexivity.
  - reflexivity.
  - reflexivity.
  - cbn. lia.
Defined.

Lemma blockTaskWorker_effects_witness :
  exists new,
    trace (snd (blockTaskWorker (fun _ _ => false) (fun _ _ => [])
                  (sample_network 2 sample_client) [sample_filter None] 5
                  (sample_block "n" 103 "h") (sample_state (sample_chain 98 5) 98 []))) =
      [] ++ new /\
    Forall (workerEffectOk (fun _ _ => false) (fun _ _ => []) (sample_network 2 sample_client)
              [sample_filter None] (sample_state (sample_chain 98 5) 98 [])
              (sample_block "n" 103 "h")) new /\
    queueStarted (snd (blockTaskWorker (fun _ _ => false) (fun _ _ => [])
                  (sample_network 2 sample_client) [sample_filter None] 5
                  (sample_block "n" 103 "h") (sample_state (sample_chain 98 5) 98 []))) = false /\
    polling (snd (blockTaskWorker (fun _ _ => false) (fun _ _ => [])
                  (sample_network 2 sample_client) [sample_filter None] 5
                  (sample_block "n" 103 "h") (sample_state (sample_chain 98 5) 98 []))) = false.
Proof.
  apply (blockTaskWorker_effects (fun _ _ => false) (fun _ _ => [])
           (sample_network 2 sample_client) [sample_filter None] 5 (sample_block "n" 103 "h")
           (sample_state (sample_chain 98 5) 98 []) _
           (fst (blockTaskWorker (fun _ _ => false) (fun _ _ => [])
                   (sample_network 2 sample_client) [sample_filter None] 5
                   (sample_block "n" 103 "h") (sample_state (sample_chain 98 5) 98 [])))).
  apply surjective_pairing.
Defined.

Lemma blockTaskWorker_localChain_invariant_witness :
  localChainOk
    (finalizedBlockNumber (snd (blockTaskWorker (fun _ _ => false) (fun _ _ => [])
       (sample_network 2 sample_client) [sample_filter None] 5
       (sample_block "n" 103 "h") (sample_state (sample_chain 98 5) 98 []))))
    (blocks (snd (blockTaskWorker (fun _ _ => false) (fun _ _ => [])
       (sample_network 2 sample_client) [sample_filter None] 5
       (sample_block "n" 103 "h") (sample_state (sample_chain 98 5) 98 [])))) /\
  98 <= finalizedBlockNumber (snd (blockTaskWorker (fun _ _ => false) (fun _ _ => [])
       (sample_network 2 sample_client) [sample_filter None] 5
       (sample_block "n" 103 "h") (sample_state (sample_chain 98 5) 98 []))).
Proof.
  apply (blockTaskWorker_localChain_invariant (fun _ _ => false) (fun _ _ => [])
           (sample_network 2 sample_client) [sample_filter None] 5 (sample_block "n" 103 "h")
           (sample_state (sample_chain 98 5) 98 []) _
           (fst (blockTaskWorker (fun _ _ => false) (fun _ _ => [])
                   (sample_network 2 sample_client) [sample_filter None] 5
                   (sample_block "n" 103 "h") (sample_state (sample_chain 98 5) 98 [])))).
  - cbn. repeat split.
  - apply surjective_pairing.
Defined.

Lemma blockTaskWorker_effect_bounds_witness :
  exists new,
    trace (snd (blockTaskWorker (fun _ _ => false) (fun _ _ => [])
                  (sample_network 2 sample_client) [sample_filter None] 5
                  (sample_block "n" 103 "h") (sample_state (sample_chain 98 5) 98 []))) =
      [] ++ new /\
    Forall (fun e => match e with
                     | deleteRealtimeData chainId fromBlockNumber =>
                         chainId = 1 /\ 98 < fromBlockNumber
                     | insertLogFilterCachedRanges _ startBlock endBlock _ =>
                         startBlock = 98 + 1 /\ endBlock = 98 + 2
                     | insertRealtimeBlock chainId block _ _ =>
                         chainId = 1 /\ block = sample_block "n" 103 "h"
                     | emit _ => True
                     end) new.
Proof.
  apply (blockTaskWorker_effect_bounds (fun _ _ => false) (fun _ _ => [])
           (sample_network 2 sample_client) [sample_filter None] 5 (sample_block "n" 103 "h")
           (sample_state (sample_chain 98 5) 98 []) _
           (fst (blockTaskWorker (fun _ _ => false) (fun _ _ => [])
                   (sample_network 2 sample_client) [sample_filter None] 5
                   (sample_block "n" 103 "h") (sample_state (sample_chain 98 5) 98 [])))).
  - cbn. repeat split.
  - apply surjective_pairing.
Defined.

Lemma setup_then_start_witness :
  (setup (sample_network 2 sample_client) ;;;
   start (sample_network 2 sample_client) [sample_filter None]) initialServiceState =
    (Ok tt, {| blocks := [sample_light "h" (Z.max 0 (200 - 2)) "p"];
               finalizedBlockNumber := Z.max 0 (200 - 2);
               queue := [(sample_block "latest" 200 "p", MAX_SAFE_INTEGER - 200)];
               queueStarted := true; polling := true; trace := [] |}) /\
  localChainOk (Z.max 0 (200 - 2)) [sample_light "h" (Z.max 0 (200 - 2)) "p"].
Proof.
  apply (setup_then_start (sample_network 2 sample_client) [sample_filter None]
           (sample_block "latest" 200 "p") (sample_block "h" (Z.max 0 (200 - 2)) "p")).
  - reflexivity.
  - reflexivity.
  - reflexivity.
  - reflexivity.
Defined.

Lemma kill_then_start_witness :
  (kill ;;; start (sample_network 2 sample_client) [sample_filter None])
    (sample_state reorg_chain 98 [(sample_block "X" 100 "H99", 1)]) =
  (Throw "Unable to start. Must call setup() method before start().",
   {| blocks := reorg_chain; finalizedBlockNumber := 98; queue := [];
      queueStarted := false; polling := false; trace := [] |}).
Proof.
  apply (kill_then_start (sample_network 2 sample_client) [sample_filter None]
           (sample_state reorg_chain 98 [(sample_block "X" 100 "H99", 1)])).
  reflexivity.
Defined.

Lemma insertCachedInterval_other_contracts_witness :
  getCachedIntervals "0xd"
    (match insertCachedInterval merge_intervals (sample_intervals ++ [other_interval])
             (sample_interval 15 35) with
     | Ok t => t | Throw _ => [] end) =
  getCachedIntervals "0xd" (sample_intervals ++ [other_interval]).
Proof.
  apply (insertCachedInterval_other_contracts merge_intervals
           (sample_intervals ++ [other_interval])
           (match insertCachedInterval merge_intervals (sample_intervals ++ [other_interval])
                    (sample_interval 15 35) with
            | Ok t => t | Throw _ => [] end)
           (sample_interval 15 35) "0xd").
  - vm_compute. reflexivity.
  - discriminate.
Defined.


Lemma getLogs_insertBlock_witness :
  In {| cl_logId := "l1"; cl_address := "0xc"; cl_blockHash := "0xb1"; cl_blockNumber := 101;
        cl_blockTimestamp := Some 1101; cl_transactionHash := "0xt" |}
     (getLogs "0xc" 1100 1101
        (insertBlock sample_cache_block (insertLogs [sample_cache_log "l1" "0xb1"] emptyCacheStore))).
Proof.
  apply (proj2 (getLogs_insertBlock sample_cache_block
                  (insertLogs [sample_cache_log "l1" "0xb1"] emptyCacheStore) "l1"
                  (logRow (sample_cache_log "l1" "0xb1")) "0xc" 1100 1101
                  ltac:(vm_compute; reflexivity) ltac:(reflexivity))).
  split; [reflexivity | cbn; lia].
Defined.

Lemma getLogs_insertLogs_insertBlock_witness :
  In {| cl_logId := "l1"; cl_address := "0xc"; cl_blockHash := "0xb1"; cl_blockNumber := 101;
        cl_blockTimestamp := Some 1101; cl_transactionHash := "0xt" |}
     (getLogs "0xc" 1000 2000
        (insertBlock sample_cache_block (insertLogs [sample_cache_log "l1" "0xb1"] emptyCacheStore))).
Proof.
  apply (proj2 (getLogs_insertLogs_insertBlock [sample_cache_log "l1" "0xb1"] sample_cache_block
                  emptyCacheStore (sample_cache_log "l1" "0xb1") 1000 2000
                  ltac:(reflexivity) ltac:(reflexivity) ltac:(reflexivity))).
  cbn. lia.
Defined.
